(** * Preheat policy manager (src/pkg/p2p/preheat/policy/manager.go)

    A shallow embedding of the policy manager of the P2P preheat
    subsystem: the read operations of the manager ([Get], [GetByName],
    [ListPolicies], [ListPoliciesByProject]) and the normalization pass
    they run on every schema that comes back from the store
    ([parsePolicy], [parseFilters], [parseTrigger]).

    Layout of the file: the model of the Go values and of the library
    functions the manager calls ([strconv.ParseInt], the conversion of a
    float64 to an int, [encoding/json]), then the manager itself, then the
    theorems.

    Conventions.
    - A Go [string] is a sequence of bytes: [string] of [ascii].
    - A fixed-width integer is a [Z]; where the code can wrap, the
      reduction modulo [2^w] is written out.
    - A float64 is a [spec_float] of the standard library (sign, integer
      mantissa, binary exponent), with [prec = 53] and [emax = 1024].
    - A pointer that may be nil is an [option]; a slice that may be nil is
      an [option] of a list.
    - A schema lives in a heap, [gmap loc Schema]: the manager mutates the
      schema it is given and hands the same pointer back.
    - A Go function returning [(T, error)] returns a [result T]; a
      run-time panic is the third outcome [Panic].
    - The [context.Context] every method takes is handed to the store and
      plays no part here; it is left out.  [Count], [Create], [Update] and
      [Delete] hand their arguments to the store and are not modelled. *)

From Stdlib Require Import ZArith String Ascii List Lia.
From Stdlib Require Import DecimalString DecimalZ DecimalPos DecimalN.
From Stdlib Require Import Floats.SpecFloat.
From stdpp Require Import base option list gmap strings.

Local Open Scope string_scope.
Local Open Scope Z_scope.

(** ** Package strconv *)

Module strconv.

(** The sentinel errors a [NumError] wraps. *)
Inductive num_err : Type :=
| ErrSyntax
| ErrRange
| ErrBase (base : Z)
| ErrBitSize (bitSize : Z).

(** [strconv.NumError]: the failing function, the input, the reason. *)
Record NumError : Type := mkNumError {
  Func : string;
  Num : string;
  Err : num_err
}.

Definition syntaxError (fn str : string) : NumError := mkNumError fn str ErrSyntax.
Definition rangeError (fn str : string) : NumError := mkNumError fn str ErrRange.
Definition baseError (fn str : string) (base : Z) : NumError :=
  mkNumError fn str (ErrBase base).
Definition bitSizeError (fn str : string) (bitSize : Z) : NumError :=
  mkNumError fn str (ErrBitSize bitSize).

Definition IntSize : Z := 64.
Definition maxUint64 : Z := 2 ^ 64 - 1.

(** Arithmetic of [uint64]. *)
Definition u64 (n : Z) : Z := n mod 2 ^ 64.

Definition byte_of (c : ascii) : Z := Z.of_N (N_of_ascii c).

(** [lower(c) = c | ('x' - 'X')]. *)
Definition lower (c : Z) : Z := Z.lor c 32.

(** The digit a byte stands for, [None] where the library reports a syntax
    error.  Underscores are digits separators for base 0 only, which this
    model leaves out (see [ParseUint]). *)
Definition digit_of (c : Z) : option Z :=
  if (48 <=? c) && (c <=? 57) then Some (c - 48)
  else if (97 <=? lower c) && (lower c <=? 122) then Some (lower c - 97 + 10)
  else None.

(** The loop of [ParseUint] over the bytes of the input, [n] being the
    number read so far.  [Some err] at the first byte that is no digit of
    the base, or where the number leaves the range. *)
Fixpoint ParseUint_loop (s0 : string) (base cutoff maxVal : Z)
  (s : string) (n : Z) : Z * option NumError :=
  match s with
  | EmptyString => (n, None)
  | String c rest =>
      match digit_of (byte_of c) with
      | None => (0, Some (syntaxError "ParseUint" s0))
      | Some d =>
          if base <=? d then (0, Some (syntaxError "ParseUint" s0))
          else if cutoff <=? n then (maxVal, Some (rangeError "ParseUint" s0))
          else
            let n' := u64 (n * base) in
            let n1 := u64 (n' + d) in
            if (n1 <? n') || (maxVal <? n1)
            then (maxVal, Some (rangeError "ParseUint" s0))
            else ParseUint_loop s0 base cutoff maxVal rest n1
      end
  end.

(** [strconv.ParseUint], for an explicit base [2 <= base <= 36].  Base 0
    (the base is taken from a prefix of the input, underscores allowed) is
    not modelled: the manager always passes base 10. *)
Definition ParseUint (s : string) (base bitSize : Z) : Z * option NumError :=
  if String.eqb s EmptyString then (0, Some (syntaxError "ParseUint" s))
  else if negb ((2 <=? base) && (base <=? 36))
  then (0, Some (baseError "ParseUint" s base))
  else if (bitSize <? 0) || (64 <? bitSize)
  then (0, Some (bitSizeError "ParseUint" s bitSize))
  else
    let bitSize := if bitSize =? 0 then IntSize else bitSize in
    let cutoff := maxUint64 / base + 1 in
    let maxVal := u64 (u64 (2 ^ bitSize) - 1) in
    ParseUint_loop s base cutoff maxVal s 0.

(** Arithmetic of [int64]. *)
Definition i64 (n : Z) : Z := (n + 2 ^ 63) mod 2 ^ 64 - 2 ^ 63.

(** [strconv.ParseInt]: an optional sign, then [ParseUint], then the check
    of the signed range.  Like the library function it returns a number
    together with the error; the number is meaningful when the error is
    [None]. *)
Definition ParseInt (s : string) (base bitSize : Z) : Z * option NumError :=
  match s with
  | EmptyString => (0, Some (syntaxError "ParseInt" s))
  | String c rest =>
      let s0 := s in
      let '(neg, s) :=
        if Ascii.eqb c "+" then (false, rest)
        else if Ascii.eqb c "-" then (true, rest)
        else (false, s) in
      let '(un, err) := ParseUint s base bitSize in
      let not_range :=
        match err with
        | Some e => match Err e with ErrRange => None | r => Some r end
        | None => None
        end in
      match not_range with
      | Some r => (0, Some (mkNumError "ParseInt" s0 r))
      | None =>
          let bitSize := if bitSize =? 0 then IntSize else bitSize in
          let cutoff := u64 (2 ^ (bitSize - 1)) in
          if negb neg && (cutoff <=? un)
          then (i64 (cutoff - 1), Some (rangeError "ParseInt" s0))
          else if neg && (cutoff <? un)
          then (i64 (- i64 cutoff), Some (rangeError "ParseInt" s0))
          else
            let n := i64 un in
            (if neg then i64 (- n) else n, None)
      end
  end.

(** The constants of [ParseUint] for base 10 and 32 bits. *)
Definition maxVal32 : Z := 2 ^ 32 - 1.
Definition cutoff10 : Z := maxUint64 / 10 + 1.

(** What [ParseInt] makes of the answer of [ParseUint]. *)
Definition ParseInt_after (s0 : string) (neg : bool) (r : Z * option NumError)
  : Z * option NumError :=
  let '(un, err) := r in
  let not_range :=
    match err with
    | Some e => match Err e with ErrRange => None | r => Some r end
    | None => None
    end in
  match not_range with
  | Some r => (0, Some (mkNumError "ParseInt" s0 r))
  | None =>
      if negb neg && (2 ^ 31 <=? un)
      then (2 ^ 31 - 1, Some (rangeError "ParseInt" s0))
      else if neg && (2 ^ 31 <? un)
      then (- 2 ^ 31, Some (rangeError "ParseInt" s0))
      else (if neg then i64 (- i64 un) else i64 un, None)
  end.

End strconv.

(** ** Go values *)

(** A pointer that may be nil, a slice that may be nil. *)
Definition ptr (A : Type) : Type := option A.
Definition slice (A : Type) : Type := option (list A).

(** The elements a [range] loop over a slice visits: none for a nil slice. *)
Definition elems {A : Type} (s : slice A) : list A :=
  match s with
  | Some l => l
  | None => []
  end.

(** A heap address. *)
Definition loc : Type := positive.

(** The dynamic values an [interface{}] holds in this package: what
    [encoding/json] stores into an [interface{}] ([nil], [bool],
    [float64], [string], [[]interface{}], [map[string]interface{}]), the
    [int] the severity coercion writes, and the [int64] of a project
    identifier. *)
#[local] Set Warnings "-register-all".
Inductive value : Type :=
| VNil
| VBool (b : bool)
| VFloat64 (x : spec_float)
| VString (s : string)
| VInt (n : Z)
| VInt64 (n : Z)
| VSlice (l : list value)
| VMap (m : list (string * value)).
#[local] Set Warnings "register-all".

(** *** Conversion of a float64 to an int *)

Definition prec64 : Z := 53.
Definition emax64 : Z := 1024.

(** [int] is 64 bits wide on the platforms the registry is built for. *)
Definition int_min : Z := - 2 ^ 63.
Definition int_max : Z := 2 ^ 63 - 1.
Definition fits_int (n : Z) : bool := (int_min <=? n) && (n <=? int_max).

(** The integer part of a float64, the fraction discarded: the float
    [(-1)^s * m * 2^e] has the integer part [(-1)^s * floor (m * 2^e)].
    An infinity and a NaN have none. *)
Definition float64_trunc (x : spec_float) : option Z :=
  match x with
  | S754_zero _ => Some 0
  | S754_finite s m e =>
      let a := if 0 <=? e then Z.shiftl (Zpos m) e else Z.shiftr (Zpos m) (- e) in
      Some (if s then - a else a)
  | S754_infinity _ => None
  | S754_nan => None
  end.

(** What is left to the implementation.  The language specification: "When
    converting a floating-point number to an integer, the fraction is
    discarded (truncation towards zero)", and "if the result type cannot
    represent the value the conversion succeeds but the result value is
    implementation-dependent". *)
Class GoImpl : Type := {
  float64_to_int_unrepresentable : spec_float -> Z
}.

(** The conversion [(int)(x)] of a float64 [x]. *)
Definition int_of_float64 `{GoImpl} (x : spec_float) : Z :=
  match float64_trunc x with
  | Some n => if fits_int n then n else strconv.i64 (float64_to_int_unrepresentable x)
  | None => strconv.i64 (float64_to_int_unrepresentable x)
  end.

(** The conversion [(int)(n)] of an int64 [n]. *)
Definition int_of_int64 (n : Z) : Z := strconv.i64 n.

(** On amd64 the conversion compiles to CVTTSD2SQ, which yields the
    "integer indefinite" value [0x8000000000000000] for every input it
    cannot represent. *)
Definition amd64 : GoImpl := {| float64_to_int_unrepresentable := fun _ => - 2 ^ 63 |}.

(** *** Reading a decimal numeral as a float64 *)

(** The float64 nearest to [(-1)^neg * m * 10^e10] ([0 <= m]), ties to the
    even mantissa, as [strconv.ParseFloat] computes it; an infinity where
    the numeral is beyond the range. *)
Definition float64_of_decimal (neg : bool) (m e10 : Z) : spec_float :=
  if m <=? 0 then S754_zero neg
  else
    let '(q, e, l) :=
      if 0 <=? e10
      then SFdiv_core_binary prec64 emax64 (m * 10 ^ e10) 0 1 0
      else SFdiv_core_binary prec64 emax64 m 0 (10 ^ (- e10)) 0 in
    binary_round_aux prec64 emax64 neg q e l.

(** ** Package encoding/json

    The errors of [json.Unmarshal], and a parser of JSON texts for the
    reference decoder of the examples.  The parser leaves out two things
    the library does: a byte of a string that is no valid UTF-8 is kept,
    where the library writes U+FFFD for it, and there is no limit on the
    nesting, where the library gives up beyond a depth of 10000.  The
    theorems hold for every decoder and do not depend on the parser. *)

Module json.

(** The two classes of error [Unmarshal] returns for a well-formed target:
    the text is no JSON document, or a JSON value does not fit the Go type
    it is decoded into.  Message and offset are not modelled. *)
Inductive json_error : Type :=
| SyntaxError
| UnmarshalTypeError.

(** A JSON document.  A number is kept as the decimal it is written as:
    [(-1)^neg * mant * 10^exp10]. *)
#[local] Set Warnings "-register-all".
Inductive doc : Type :=
| JNull
| JBool (b : bool)
| JNumber (neg : bool) (mant exp10 : Z)
| JString (s : string)
| JArray (items : list doc)
| JObject (members : list (string * doc)).
#[local] Set Warnings "register-all".

Definition is_space (c : ascii) : bool :=
  Ascii.eqb c " " || Ascii.eqb c "009" || Ascii.eqb c "010" || Ascii.eqb c "013".

Fixpoint skip_ws (s : string) : string :=
  match s with
  | String c r => if is_space c then skip_ws r else s
  | EmptyString => s
  end.

Definition is_digit (c : ascii) : bool :=
  (48 <=? strconv.byte_of c) && (strconv.byte_of c <=? 57).

Definition hex_of (c : ascii) : option Z :=
  let b := strconv.byte_of c in
  if (48 <=? b) && (b <=? 57) then Some (b - 48)
  else if (97 <=? b) && (b <=? 102) then Some (b - 87)
  else if (65 <=? b) && (b <=? 70) then Some (b - 55)
  else None.

Definition hex4 (a b c d : ascii) : option Z :=
  match hex_of a, hex_of b, hex_of c, hex_of d with
  | Some x, Some y, Some z, Some w => Some (((x * 16 + y) * 16 + z) * 16 + w)
  | _, _, _, _ => None
  end.

Definition chr (n : Z) : ascii := ascii_of_N (Z.to_N n).

(** [utf8.EncodeRune]. *)
Definition utf8 (r : Z) : string :=
  if r <? 128 then String (chr r) EmptyString
  else if r <? 2048 then
    String (chr (192 + r / 64)) (String (chr (128 + r mod 64)) EmptyString)
  else if r <? 65536 then
    String (chr (224 + r / 4096))
      (String (chr (128 + (r / 64) mod 64)) (String (chr (128 + r mod 64)) EmptyString))
  else
    String (chr (240 + r / 262144))
      (String (chr (128 + (r / 4096) mod 64))
         (String (chr (128 + (r / 64) mod 64)) (String (chr (128 + r mod 64)) EmptyString))).

Definition is_surrogate (u : Z) : bool := (55296 <=? u) && (u <? 57344).

(** The rune of a [\u] escape [u] that is followed by the text [r]: a
    surrogate pair is joined, a lone surrogate is the replacement
    character. *)
Definition escaped_rune (u : Z) (r : string) : Z * string :=
  if is_surrogate u then
    match r with
    | String "\" (String "u" (String a (String b (String c (String d r'))))) =>
        match hex4 a b c d with
        | Some u2 =>
            if (u <? 56320) && (56320 <=? u2) && (u2 <? 57344)
            then (65536 + (u - 55296) * 1024 + (u2 - 56320), r')
            else (65533, r)
        | None => (65533, r)
        end
    | _ => (65533, r)
    end
  else (u, r).

(** The body of a string literal, after the opening quote: the decoded
    bytes, appended to [acc], and the text after the closing quote. *)
Fixpoint p_string (n : nat) (s : string) (acc : string) : option (string * string) :=
  match n with
  | O => None
  | S n =>
      match s with
      | EmptyString => None
      | String "034" r => Some (acc, r)
      | String "\" (String e r) =>
          if Ascii.eqb e "u" then
            match r with
            | String a (String b (String c (String d r'))) =>
                match hex4 a b c d with
                | Some u =>
                    let '(rn, r'') := escaped_rune u r' in
                    p_string n r'' (acc ++ utf8 rn)
                | None => None
                end
            | _ => None
            end
          else
            let lit :=
              if Ascii.eqb e "034" then Some "034"%char
              else if Ascii.eqb e "\" then Some "\"%char
              else if Ascii.eqb e "/" then Some "/"%char
              else if Ascii.eqb e "b" then Some "008"%char
              else if Ascii.eqb e "f" then Some "012"%char
              else if Ascii.eqb e "n" then Some "010"%char
              else if Ascii.eqb e "r" then Some "013"%char
              else if Ascii.eqb e "t" then Some "009"%char
              else None in
            match lit with
            | Some c => p_string n r (acc ++ String c EmptyString)
            | None => None
            end
      | String c r =>
          if strconv.byte_of c <? 32 then None
          else p_string n r (acc ++ String c EmptyString)
      end
  end.

(** A run of digits: their number, their value after [acc], the rest. *)
Fixpoint p_digits (s : string) (count acc : Z) : Z * Z * string :=
  match s with
  | String c r =>
      if is_digit c then p_digits r (count + 1) (acc * 10 + (strconv.byte_of c - 48))
      else (count, acc, s)
  | EmptyString => (count, acc, s)
  end.

(** A number literal: an optional minus sign; a zero, or digits that do not
    start with a zero; optionally a point and digits; optionally an
    exponent, a sign and digits. *)
Definition p_number (s : string) : option (doc * string) :=
  let '(neg, s) :=
    match s with
    | String "-" r => (true, r)
    | _ => (false, s)
    end in
  let int_part :=
    match s with
    | String "0" r => Some (0, r)
    | String c _ =>
        if is_digit c then let '(_, v, r) := p_digits s 0 0 in Some (v, r) else None
    | EmptyString => None
    end in
  match int_part with
  | None => None
  | Some (m, s) =>
      let frac :=
        match s with
        | String "." r =>
            let '(k, v, r') := p_digits r 0 m in
            if k =? 0 then None else Some (v, - k, r')
        | _ => Some (m, 0, s)
        end in
      match frac with
      | None => None
      | Some (m, e, s) =>
          let expo (r : string) :=
            let '(eneg, r) :=
              match r with
              | String "+" r' => (false, r')
              | String "-" r' => (true, r')
              | _ => (false, r)
              end in
            let '(k, v, r') := p_digits r 0 0 in
            if k =? 0 then None
            else Some (JNumber neg m (e + (if eneg then - v else v)), r') in
          match s with
          | String "e" r => expo r
          | String "E" r => expo r
          | _ => Some (JNumber neg m e, s)
          end
      end
  end.

Fixpoint strip_prefix (p s : string) : option string :=
  match p, s with
  | EmptyString, _ => Some s
  | String a p', String b s' => if Ascii.eqb a b then strip_prefix p' s' else None
  | String _ _, EmptyString => None
  end.

(** A value, with the text that follows it.  [n] bounds the number of
    nested calls; twice the length of the text is enough, every second call
    consuming a byte. *)
Fixpoint p_value (n : nat) (s : string) : option (doc * string) :=
  match n with
  | O => None
  | S n =>
      match skip_ws s with
      | String "[" r =>
          match skip_ws r with
          | String "]" r' => Some (JArray [], r')
          | _ =>
              match p_items n r with
              | Some (items, r') => Some (JArray items, r')
              | None => None
              end
          end
      | String "{" r =>
          match skip_ws r with
          | String "}" r' => Some (JObject [], r')
          | _ =>
              match p_members n r with
              | Some (members, r') => Some (JObject members, r')
              | None => None
              end
          end
      | String "034" r =>
          match p_string (S (String.length r)) r EmptyString with
          | Some (str, r') => Some (JString str, r')
          | None => None
          end
      | String "t" _ =>
          option_map (pair (JBool true)) (strip_prefix "true" (skip_ws s))
      | String "f" _ =>
          option_map (pair (JBool false)) (strip_prefix "false" (skip_ws s))
      | String "n" _ =>
          option_map (pair JNull) (strip_prefix "null" (skip_ws s))
      | rest => p_number rest
      end
  end
with p_items (n : nat) (s : string) : option (list doc * string) :=
  match n with
  | O => None
  | S n =>
      match p_value n s with
      | Some (v, r) =>
          match skip_ws r with
          | String "," r' =>
              match p_items n r' with
              | Some (vs, r'') => Some (v :: vs, r'')
              | None => None
              end
          | String "]" r' => Some ([v], r')
          | _ => None
          end
      | None => None
      end
  end
with p_members (n : nat) (s : string) : option (list (string * doc) * string) :=
  match n with
  | O => None
  | S n =>
      match skip_ws s with
      | String "034" r =>
          match p_string (S (String.length r)) r EmptyString with
          | Some (key, r') =>
              match skip_ws r' with
              | String ":" r'' =>
                  match p_value n r'' with
                  | Some (v, r3) =>
                      match skip_ws r3 with
                      | String "," r4 =>
                          match p_members n r4 with
                          | Some (ms, r5) => Some ((key, v) :: ms, r5)
                          | None => None
                          end
                      | String "}" r4 => Some ([(key, v)], r4)
                      | _ => None
                      end
                  | None => None
                  end
              | _ => None
              end
          | None => None
          end
      | _ => None
      end
  end.

(** The document a text holds: one value, white space around it. *)
Definition parse (s : string) : json_error + doc :=
  match p_value (2 * String.length s + 2) s with
  | Some (v, r) =>
      match skip_ws r with
      | EmptyString => inr v
      | String _ _ => inl SyntaxError
      end
  | None => inl SyntaxError
  end.

End json.

(** ** The policy models (package pkg/p2p/preheat/models/policy) and the
       query (package lib/q) *)

Module models.

(** Modelled from the spec: the constant [policy.FilterTypeVulnerability],
    declared with the models; the filter type of the vulnerability-severity
    variant is serialized as [vulnerability]. *)
Definition FilterTypeVulnerability : string := "vulnerability".

(** Modelled from the spec: the struct [policy.Filter], declared with the
    models: a type and a value whose shape depends on the type.  The field
    [Type] is [Type_] here. *)
Record Filter : Type := mkFilter {
  Type_ : string;
  Value : value
}.

(** Modelled from the spec: what this package never looks into.  The
    trigger; the fields of a schema besides those the manager reads and
    writes; the fields of a query besides its keywords, and their zero
    value, which [&q.Query{}] starts from. *)
Class Opaque : Type := {
  trigger : Type;
  metadata : Type;
  paging : Type;
  paging_zero : paging
}.

(** Modelled from the spec: the struct [policy.Schema], declared with the
    models.  The raw texts [FiltersStr] and [TriggerStr] are what the store
    persists; [Filters] and [Trigger] are derived from them on every read. *)
Record Schema `{Opaque} : Type := mkSchema {
  ID : Z;
  Name : string;
  ProjectID : Z;
  FiltersStr : string;
  Filters : slice (ptr Filter);
  TriggerStr : string;
  Trigger : ptr trigger;
  Rest : metadata
}.

(** Modelled from the spec: the struct [q.Query], a paging and filtering
    descriptor with a map of keyword constraints.  A Go map is a reference:
    [Keywords] is nil or the address of a map object. *)
Record Query `{Opaque} : Type := mkQuery {
  Keywords : ptr loc;
  Paging : paging
}.

(** The objects the manager and its callers share. *)
Record world `{Opaque} : Type := mkWorld {
  schemas : gmap loc Schema;
  queries : gmap loc Query;
  kwmaps : gmap loc (gmap string value)
}.

End models.
Export models.

(** ** Errors (package lib/errors) and results *)

Module errors.

(** What the store reports. *)
Inductive store_error : Type :=
| StoreNotFound (msg : string)
| StoreFailure (msg : string).

(** Modelled from the spec: the error values this package returns.  [New]
    and [Wrapf] are the constructors of lib/errors, which is not under
    src: [New msg] is an error with the message [msg], [Wrapf cause msg] an
    error that wraps [cause] under the context [msg].  The other three are
    errors of the callees, handed on as they are. *)
Inductive error : Type :=
| New (msg : string)
| Wrapf (cause : error) (msg : string)
| OfJSON (e : json.json_error)
| OfStrconv (e : strconv.NumError)
| OfStore (e : store_error).

Inductive kind : Type :=
| InvalidInput
| Malformed
| NotFound
| Other.

(** Modelled from the spec: the taxonomy of failures.  The code attaches no
    kind to an error; the kind is read off the error value.  [InvalidInput]:
    a structurally invalid argument, which the manager reports with [New].
    [Malformed]: a raw text that failed to decode, or a value that could not
    be coerced.  [NotFound]: reported by the store.  A wrapped error has the
    kind of its cause. *)
Fixpoint kind_of (e : error) : kind :=
  match e with
  | New _ => InvalidInput
  | Wrapf cause _ => kind_of cause
  | OfJSON _ => Malformed
  | OfStrconv _ => Malformed
  | OfStore (StoreNotFound _) => NotFound
  | OfStore (StoreFailure _) => Other
  end.

(** The outcome of a call that returns [(T, error)]: a value with a nil
    error, a non-nil error (the value is then nil), or a panic. *)
Inductive result (A : Type) : Type :=
| Ok (a : A)
| Err (e : error)
| Panic.
Arguments Ok {A} a.
Arguments Err {A} e.
Arguments Panic {A}.

End errors.
Export errors.

(** ** The collaborators *)

(** [json.Unmarshal] at the two types the manager decodes into: a
    [[]*policy.Filter] that starts nil, and a [policy.Trigger] that starts
    zero.  An element of the decoded slice is nil where the text has
    [null]. *)
Class Unmarshal `{Opaque} : Type := {
  unmarshal_filters : string -> json.json_error + slice (ptr Filter);
  unmarshal_trigger : string -> json.json_error + trigger
}.

(** The store, [dao.DAO]: the three reads the manager normalizes.  A read
    allocates or reuses schemas in the heap and returns pointers to them;
    [List] reads the query it is given. *)
Module dao.
Class DAO `{Opaque} : Type := {
  Get : Z -> gmap loc Schema -> gmap loc Schema * result (ptr loc);
  GetByName : Z -> string -> gmap loc Schema -> gmap loc Schema * result (ptr loc);
  List : ptr loc -> world -> gmap loc Schema * result (slice (ptr loc))
}.
End dao.

(** ** The manager *)

Section manager.
Context `{O : Opaque} `{U : !Unmarshal} `{G : !GoImpl} `{D : !dao.DAO}.

(** The [for _, f := range filters] loop of [parseFilters].  Every element
    points to a filter of its own, which the loop updates in place. *)
Fixpoint parseFilters_loop (filters : list (ptr Filter)) : result (list (ptr Filter)) :=
  match filters with
  | [] => Ok []
  | f :: rest =>
      match f with
      | None => Panic
      | Some f =>
          let continue (f : Filter) :=
            match parseFilters_loop rest with
            | Ok rest => Ok (Some f :: rest)
            | Err e => Err e
            | Panic => Panic
            end in
          if String.eqb (Type_ f) FilterTypeVulnerability then
            match Value f with
            | VString str =>
                let '(sev, err) := strconv.ParseInt str 10 32 in
                match err with
                | Some err => Err (Wrapf (OfStrconv err) "parse filters")
                | None => continue (mkFilter (Type_ f) (VInt (int_of_int64 sev)))
                end
            | VFloat64 x => continue (mkFilter (Type_ f) (VInt (int_of_float64 x)))
            | _ => continue f
            end
          else continue f
      end
  end.

(** [parseFilters] parses filterStr to filters. *)
Definition parseFilters (filterStr : string) : result (slice (ptr Filter)) :=
  if (String.length filterStr =? 0)%nat then Ok None
  else
    match unmarshal_filters filterStr with
    | inl err => Err (OfJSON err)
    | inr filters =>
        match parseFilters_loop (elems filters) with
        | Ok l => Ok (match filters with Some _ => Some l | None => None end)
        | Err e => Err e
        | Panic => Panic
        end
    end.

(** [parseTrigger] parses triggerStr to a trigger. *)
Definition parseTrigger (triggerStr : string) : result (ptr trigger) :=
  if (String.length triggerStr =? 0)%nat then Ok None
  else
    match unmarshal_trigger triggerStr with
    | inl err => Err (OfJSON err)
    | inr trigger => Ok (Some trigger)
    end.

Definition set_Filters (s : Schema) (filters : slice (ptr Filter)) : Schema :=
  {| ID := ID s; Name := Name s; ProjectID := ProjectID s;
     FiltersStr := FiltersStr s; Filters := filters;
     TriggerStr := TriggerStr s; Trigger := Trigger s; Rest := Rest s |}.

Definition set_Trigger (s : Schema) (t : ptr trigger) : Schema :=
  {| ID := ID s; Name := Name s; ProjectID := ProjectID s;
     FiltersStr := FiltersStr s; Filters := Filters s;
     TriggerStr := TriggerStr s; Trigger := t; Rest := Rest s |}.

(** [parsePolicy] parses the policy model: it writes the two derived fields
    of the schema [schema] points to and returns the pointer.  A pointer
    into nowhere does not exist in Go; the model panics there. *)
Definition parsePolicy (schema : ptr loc) (h : gmap loc Schema)
  : gmap loc Schema * result loc :=
  match schema with
  | None => (h, Err (New "policy schema can not be nil"))
  | Some l =>
      match h !! l with
      | None => (h, Panic)
      | Some s =>
          match parseFilters (FiltersStr s) with
          | Err e => (h, Err e)
          | Panic => (h, Panic)
          | Ok filters =>
              let s := set_Filters s filters in
              let h := <[l := s]> h in
              match parseTrigger (TriggerStr s) with
              | Err e => (h, Err e)
              | Panic => (h, Panic)
              | Ok trigger =>
                  let s := set_Trigger s trigger in
                  (<[l := s]> h, Ok l)
              end
          end
      end
  end.

(** [Get] the policy schema by id. *)
Definition Get (id : Z) (h : gmap loc Schema) : gmap loc Schema * result loc :=
  match dao.Get id h with
  | (h, Err err) => (h, Err err)
  | (h, Panic) => (h, Panic)
  | (h, Ok schema) => parsePolicy schema h
  end.

(** [GetByName]: the policy schema by name. *)
Definition GetByName (projectID : Z) (name : string) (h : gmap loc Schema)
  : gmap loc Schema * result loc :=
  match dao.GetByName projectID name h with
  | (h, Err err) => (h, Err err)
  | (h, Panic) => (h, Panic)
  | (h, Ok schema) => parsePolicy schema h
  end.

(** The [for i := range schemas] loop of [ListPolicies], from some index
    on: [schemas[i] = schema] for every schema that normalizes, the first
    error ends the loop. *)
Fixpoint ListPolicies_loop (schemas : list (ptr loc)) (h : gmap loc Schema)
  : gmap loc Schema * result (list (ptr loc)) :=
  match schemas with
  | [] => (h, Ok [])
  | p :: rest =>
      match parsePolicy p h with
      | (h, Ok schema) =>
          match ListPolicies_loop rest h with
          | (h, Ok rest) => (h, Ok (Some schema :: rest))
          | (h, Err e) => (h, Err e)
          | (h, Panic) => (h, Panic)
          end
      | (h, Err err) => (h, Err err)
      | (h, Panic) => (h, Panic)
      end
  end.

Definition set_schemas (w : world) (h : gmap loc Schema) : world :=
  {| schemas := h; queries := queries w; kwmaps := kwmaps w |}.

(** [ListPolicies] lists policy schemas by query. *)
Definition ListPolicies (query : ptr loc) (w : world)
  : world * result (slice (ptr loc)) :=
  match dao.List query w with
  | (h, Err err) => (set_schemas w h, Err err)
  | (h, Panic) => (set_schemas w h, Panic)
  | (h, Ok schemas) =>
      match ListPolicies_loop (elems schemas) h with
      | (h, Ok l) =>
          (set_schemas w h, Ok (match schemas with Some _ => Some l | None => None end))
      | (h, Err err) => (set_schemas w h, Err err)
      | (h, Panic) => (set_schemas w h, Panic)
      end
  end.

(** Lines 122 to 130 of [ListPoliciesByProject]: a nil query becomes a new
    [&q.Query{}], a nil keyword map a new empty map, and the project is
    stored under the key [project_id].  The result is the query the call
    goes on with.  [None] stands for a pointer into nowhere. *)
Definition projectQuery (project : Z) (query : ptr loc) (w : world)
  : option (loc * world) :=
  let '(query, w) :=
    match query with
    | None =>
        let l := fresh (dom (queries w)) in
        (l, {| schemas := schemas w;
               queries := <[l := {| Keywords := None; Paging := paging_zero |}]> (queries w);
               kwmaps := kwmaps w |})
    | Some l => (l, w)
    end in
  match queries w !! query with
  | None => None
  | Some qv =>
      let '(m, w) :=
        match Keywords qv with
        | None =>
            let m := fresh (dom (kwmaps w)) in
            (m, {| schemas := schemas w;
                   queries :=
                     <[query := {| Keywords := Some m; Paging := Paging qv |}]> (queries w);
                   kwmaps := <[m := ∅]> (kwmaps w) |})
        | Some m => (m, w)
        end in
      match kwmaps w !! m with
      | None => None
      | Some kw =>
          Some (query,
                {| schemas := schemas w;
                   queries := queries w;
                   kwmaps := <[m := <["project_id" := VInt64 project]> kw]> (kwmaps w) |})
      end
  end.

(** [ListPoliciesByProject] lists the policy schemas under a project. *)
Definition ListPoliciesByProject (project : Z) (query : ptr loc) (w : world)
  : world * result (slice (ptr loc)) :=
  match projectQuery project query w with
  | None => (w, Panic)
  | Some (query, w) => ListPolicies (Some query) w
  end.

End manager.


(** ** Reference collaborators

    The theorems below hold for every decoder, store and implementation.
    The examples run on these: a decoder for JSON texts that follows
    [encoding/json] at the two types the manager decodes into, the amd64
    conversion, and a store over a table of rows. *)

Module reference.

(** JSON texts are written with an apostrophe for every double quote. *)
Fixpoint text (s : string) : string :=
  match s with
  | String c r => String (if Ascii.eqb c "'" then "034"%char else c) (text r)
  | EmptyString => EmptyString
  end.

(** The opaque parts: a trigger is the list of the members of the object it
    was decoded from, the rest of a schema a description, the paging of a
    query a page number and a page size. *)
Definition opaque : Opaque :=
  {| trigger := list (string * json.doc);
     metadata := string;
     paging := Z * Z;
     paging_zero := (0, 0) |}.

Definition sum_map {E A B : Type} (f : A -> B) (r : E + A) : E + B :=
  match r with
  | inl e => inl e
  | inr a => inr (f a)
  end.

(** What [encoding/json] stores into an [interface{}].  A number becomes a
    float64; one beyond the range of float64 is a type error.  An object
    becomes a map, the last of several members with one key winning. *)
Fixpoint to_any (d : json.doc) : json.json_error + value :=
  match d with
  | json.JNull => inr VNil
  | json.JBool b => inr (VBool b)
  | json.JNumber neg m e =>
      match float64_of_decimal neg m e with
      | S754_infinity _ => inl json.UnmarshalTypeError
      | x => inr (VFloat64 x)
      end
  | json.JString s => inr (VString s)
  | json.JArray items =>
      sum_map VSlice
        ((fix go (l : list json.doc) : json.json_error + list value :=
            match l with
            | [] => inr []
            | d :: l =>
                match to_any d, go l with
                | inr v, inr vs => inr (v :: vs)
                | inl e, _ => inl e
                | _, inl e => inl e
                end
            end) items)
  | json.JObject members =>
      sum_map VMap
        ((fix go (l : list (string * json.doc)) : json.json_error + list (string * value) :=
            match l with
            | [] => inr []
            | (k, d) :: l =>
                match to_any d, go l with
                | inr v, inr vs =>
                    inr (if existsb (fun kv => String.eqb (fst kv) k) vs
                         then vs else (k, v) :: vs)
                | inl e, _ => inl e
                | _, inl e => inl e
                end
            end) members)
  end.

Definition fold_byte (c : ascii) : ascii :=
  let b := strconv.byte_of c in
  if (65 <=? b) && (b <=? 90) then json.chr (b + 32) else c.

Fixpoint fold_case (s : string) : string :=
  match s with
  | String c r => String (fold_byte c) (fold_case r)
  | EmptyString => EmptyString
  end.

(** A key of an object names a field when it is the name in the tag of the
    field, up to the case of the letters. *)
Definition names (key field : string) : bool := String.eqb (fold_case key) field.

(** The members of an object stored into a [policy.Filter], in the order
    of the text: [type] takes a string ([null] leaves it), [value] takes
    anything, other members are skipped.  The decoder goes on after a type
    error and reports it at the end. *)
Fixpoint to_filter (members : list (string * json.doc)) (f : Filter)
  : json.json_error + Filter :=
  match members with
  | [] => inr f
  | (k, d) :: rest =>
      if names k "type" then
        match d with
        | json.JString s => to_filter rest (mkFilter s (Value f))
        | json.JNull => to_filter rest f
        | _ => inl json.UnmarshalTypeError
        end
      else if names k "value" then
        match to_any d with
        | inr v => to_filter rest (mkFilter (Type_ f) v)
        | inl e => inl e
        end
      else to_filter rest f
  end.

(** An element of the array stored into a [*policy.Filter]: [null] is the
    nil pointer, an object a new filter. *)
Definition to_filter_ptr (d : json.doc) : json.json_error + ptr Filter :=
  match d with
  | json.JNull => inr None
  | json.JObject members => sum_map Some (to_filter members (mkFilter EmptyString VNil))
  | _ => inl json.UnmarshalTypeError
  end.

Fixpoint to_filters (items : list json.doc) : json.json_error + list (ptr Filter) :=
  match items with
  | [] => inr []
  | d :: rest =>
      match to_filter_ptr d, to_filters rest with
      | inr f, inr fs => inr (f :: fs)
      | inl e, _ => inl e
      | _, inl e => inl e
      end
  end.

(** [json.Unmarshal([]byte(s), &filters)] for a nil [filters]: [null]
    leaves the slice nil, an array fills it. *)
Definition unmarshal_filters (s : string) : json.json_error + slice (ptr Filter) :=
  match json.parse s with
  | inl e => inl e
  | inr json.JNull => inr None
  | inr (json.JArray items) => sum_map Some (to_filters items)
  | inr _ => inl json.UnmarshalTypeError
  end.

(** [json.Unmarshal([]byte(s), trigger)] for a zero [trigger]: the members
    of the object, none for [null].  What the fields of a trigger accept
    is not modelled. *)
Definition unmarshal_trigger (s : string) : json.json_error + list (string * json.doc) :=
  match json.parse s with
  | inl e => inl e
  | inr json.JNull => inr []
  | inr (json.JObject members) => inr members
  | inr _ => inl json.UnmarshalTypeError
  end.

Definition unmarshal : @Unmarshal opaque :=
  @Build_Unmarshal opaque unmarshal_filters unmarshal_trigger.

(** A store over a table of rows.  A read puts the rows it answers with
    into the heap, each at a new address. *)
Fixpoint alloc (rows : list (@Schema opaque)) (h : gmap loc (@Schema opaque))
  : gmap loc (@Schema opaque) * list (ptr loc) :=
  match rows with
  | [] => (h, [])
  | r :: rows =>
      let l := fresh (dom h) in
      let '(h', ps) := alloc rows (<[l := r]> h) in
      (h', Some l :: ps)
  end.

Definition answer (rows : list (@Schema opaque)) (h : gmap loc (@Schema opaque))
  : gmap loc (@Schema opaque) * result (ptr loc) :=
  match rows with
  | r :: _ => let l := fresh (dom h) in (<[l := r]> h, Ok (Some l))
  | [] => (h, Err (OfStore (StoreNotFound "policy not found")))
  end.

(** The project a query is restricted to, if any. *)
Definition project_of (query : ptr loc) (w : @world opaque) : option Z :=
  l ← query; qv ← queries w !! l; m ← Keywords qv; kw ← kwmaps w !! m;
  match kw !! "project_id" with
  | Some (VInt64 p) => Some p
  | _ => None
  end.

Definition store (table : list (@Schema opaque)) : @dao.DAO opaque :=
  {| dao.Get := fun id h => answer (List.filter (fun r => ID r =? id) table) h;
     dao.GetByName := fun projectID name h =>
       answer (List.filter (fun r => (ProjectID r =? projectID) && String.eqb (Name r) name)
                 table) h;
     dao.List := fun query w =>
       let rows :=
         match project_of query w with
         | Some p => List.filter (fun r => ProjectID r =? p) table
         | None => table
         end in
       let '(h, ps) := alloc rows (schemas w) in
       (h, Ok (Some ps)) |}.

(** A row with the two raw texts. *)
Definition row (id : Z) (name : string) (project : Z) (filters trigger : string)
  : @Schema opaque :=
  @mkSchema opaque id name project filters None trigger None "preheat".

Definition empty_world : @world opaque := @mkWorld opaque ∅ ∅ ∅.

(** The texts and rows of the examples. *)
Definition filters_7 : string :=
  text "[{'type':'vulnerability','value':'7'},{'type':'vulnerability','value':7.9},{'type':'tag','value':'7'}]".
Definition filters_high : string :=
  text "[{'type':'tag','value':'v1'},{'type':'vulnerability','value':'high'}]".
Definition filters_1e300 : string := text "[{'type':'vulnerability','value':1e300}]".
Definition filters_minus_1e300 : string := text "[{'type':'vulnerability','value':-1e300}]".
Definition filters_true : string := text "[{'type':'vulnerability','value':true}]".
Definition trigger_manual : string := text "{'type':'manual'}".
Definition trigger_truncated : string := text "{'type':'manual'".

Definition nightly : @Schema opaque := row 1 "nightly" 1 filters_7 trigger_manual.
Definition blank : @Schema opaque := row 2 "blank" 2 EmptyString EmptyString.
Definition broken : @Schema opaque := row 3 "broken" 1 filters_7 trigger_truncated.
Definition masked : @Schema opaque := row 4 "masked" 1 filters_high trigger_truncated.

Definition table : list (@Schema opaque) := [nightly; blank; broken].

(** The rows of the two end-to-end scenarios: a severity written as a
    string and as a number with a fraction. *)
Definition five_string : @Schema opaque :=
  row 5 "five" 1 (text "[{'type':'vulnerability','value':'5'}]") trigger_manual.
Definition five_float : @Schema opaque :=
  row 6 "five" 2 (text "[{'type':'vulnerability','value':5.0}]") trigger_manual.

(** The heap after the store listed the three rows of [table]. *)
Definition listed : gmap loc (@Schema opaque) :=
  <[3%positive := broken]> (<[2%positive := blank]> (<[1%positive := nightly]> ∅)).

(** The float64 nearest to 7.9 and to 1e300. *)
Definition f7_9 : spec_float := float64_of_decimal false 79 (-1).
Definition f1e300 : spec_float := float64_of_decimal false 1 300.

(** What [filters_7] and [filters_high] decode to. *)
Definition decoded_7 : list Filter :=
  [mkFilter "vulnerability" (VString "7");
   mkFilter "vulnerability" (VFloat64 f7_9);
   mkFilter "tag" (VString "7")].
Definition decoded_high : list Filter :=
  [mkFilter "tag" (VString "v1"); mkFilter "vulnerability" (VString "high")].

(** A world with one query of a caller, without keywords, at address 5. *)
Definition asking : @world opaque :=
  @mkWorld opaque ∅ (<[5%positive := @mkQuery opaque None (2, 10)]> ∅) ∅.

End reference.


(** ** Decimal numerals, as the specification words them *)

Module decimal.

(** The number a run of decimal digits stands for, read after [acc];
    [None] where a byte is no digit. *)
Fixpoint digits_value (s : string) (acc : Z) : option Z :=
  match s with
  | EmptyString => Some acc
  | String c r =>
      if json.is_digit c then digits_value r (acc * 10 + (strconv.byte_of c - 48))
      else None
  end.

(** "A base-10 signed integer (32-bit range)": an optional sign, at least
    one digit, nothing else, and a value from [-2^31] to [2^31 - 1]. *)
Definition int32 (s : string) : option Z :=
  let '(neg, body) :=
    match s with
    | String "+" r => (false, r)
    | String "-" r => (true, r)
    | _ => (false, s)
    end in
  match body with
  | EmptyString => None
  | String _ _ =>
      match digits_value body 0 with
      | Some v =>
          let n := if neg then - v else v in
          if (- 2 ^ 31 <=? n) && (n <? 2 ^ 31) then Some n else None
      | None => None
      end
  end.

(** The decimal numeral of an integer. *)
Definition of_Z (n : Z) : string := NilEmpty.string_of_int (Z.to_int n).

End decimal.

(** ** The vocabulary of the specification *)

Section vocabulary.
Context `{O : Opaque} `{U : !Unmarshal} `{G : !GoImpl}.

Definition is_severity (f : Filter) : bool :=
  String.eqb (Type_ f) FilterTypeVulnerability.

(** One turn of the loop of [parseFilters], on the filter [f]: the filter
    the turn leaves behind, or the error it ends the loop with. *)
Definition coerce (f : Filter) : strconv.NumError + Filter :=
  if is_severity f then
    match Value f with
    | VString str =>
        let '(sev, err) := strconv.ParseInt str 10 32 in
        match err with
        | Some err => inl err
        | None => inr (mkFilter (Type_ f) (VInt (int_of_int64 sev)))
        end
    | VFloat64 x => inr (mkFilter (Type_ f) (VInt (int_of_float64 x)))
    | _ => inr f
    end
  else inr f.

(** The coercion as the specification words it, [f'] being what becomes of
    the filter [f]: the type is kept; on a severity filter a string is
    replaced by the integer it is the numeral of, a float by its integer
    part where that is an int (and by some int otherwise), any other value
    is kept; on any other filter the value is kept. *)
Definition severity_coerced (f f' : Filter) : Prop :=
  Type_ f' = Type_ f /\
  if is_severity f then
    match Value f with
    | VString str => exists n, decimal.int32 str = Some n /\ Value f' = VInt n
    | VFloat64 x =>
        exists n, Value f' = VInt n /\ int_min <= n <= int_max /\
          forall t, float64_trunc x = Some t -> int_min <= t <= int_max -> n = t
    | v => Value f' = v
    end
  else Value f' = Value f.

(** A severity filter whose string is no numeral of a 32-bit integer. *)
Definition bad_severity (f : Filter) : bool :=
  is_severity f &&
  match Value f with
  | VString str =>
      match decimal.int32 str with
      | None => true
      | Some _ => false
      end
  | _ => false
  end.

(** The slice [parseFilters] returns for the decoded slice [filters], its
    elements coerced to [fs']: nil stays nil. *)
Definition coerced_slice (filters : slice (ptr Filter)) (fs' : list Filter)
  : slice (ptr Filter) :=
  match filters with
  | Some _ => Some (Some <$> fs')
  | None => None
  end.

Definition string_or_float (v : value) : bool :=
  match v with
  | VString _ => true
  | VFloat64 _ => true
  | _ => false
  end.

(** What the pass makes of a schema, the heap left aside. *)
Definition normal_form (s : Schema) : result Schema :=
  match parseFilters (FiltersStr s) with
  | Ok filters =>
      match parseTrigger (TriggerStr s) with
      | Ok trigger => Ok (set_Trigger (set_Filters s filters) trigger)
      | Err e => Err e
      | Panic => Panic
      end
  | Err e => Err e
  | Panic => Panic
  end.

(** The fields of a schema the pass does not write. *)
Definition persisted (s : Schema) : Z * string * Z * string * string * metadata :=
  (ID s, Name s, ProjectID s, FiltersStr s, TriggerStr s, Rest s).

(** The outcome of the pass on [schema], its value left aside. *)
Definition verdict (schema : ptr loc) (h : gmap loc Schema) : result unit :=
  match schema with
  | None => Err (New "policy schema can not be nil")
  | Some l =>
      match h !! l with
      | None => Panic
      | Some s =>
          match normal_form s with
          | Ok _ => Ok tt
          | Err e => Err e
          | Panic => Panic
          end
      end
  end.

(** The verdict on the first schema of a page that does not normalize. *)
Fixpoint first_failure (page : list (ptr loc)) (h : gmap loc Schema) : result unit :=
  match page with
  | [] => Ok tt
  | p :: rest =>
      match verdict p h with
      | Ok _ => first_failure rest h
      | Err e => Err e
      | Panic => Panic
      end
  end.

(** The schema the pass leaves at an address. *)
Definition normalized (s : Schema) : option Schema :=
  match normal_form s with
  | Ok s' => Some s'
  | _ => None
  end.

(** The pass normalizes the schema [p] points to. *)
Definition normalizes (p : ptr loc) (h : gmap loc Schema) : Prop :=
  exists h' l, parsePolicy p h = (h', Ok l).

(** The pass fails on it with the error [e]. *)
Definition fails_with (p : ptr loc) (h : gmap loc Schema) (e : error) : Prop :=
  exists h', parsePolicy p h = (h', Err e).

(** The pass panics on it. *)
Definition panics (p : ptr loc) (h : gmap loc Schema) : Prop :=
  exists h', parsePolicy p h = (h', Panic).

(** A raw text of the schema is not empty and fails to decode. *)
Definition undecodable (s : Schema) : Prop :=
  (FiltersStr s <> EmptyString /\ exists e, unmarshal_filters (FiltersStr s) = inl e)
  \/ (TriggerStr s <> EmptyString /\ exists e, unmarshal_trigger (TriggerStr s) = inl e).

(** A query the caller may pass: nil, or a query of the heap whose keyword
    map is nil or a map of the heap. *)
Definition valid_query (query : ptr loc) (w : world) : Prop :=
  match query with
  | None => True
  | Some q =>
      exists qv, queries w !! q = Some qv /\
        match Keywords qv with
        | None => True
        | Some m => is_Some (kwmaps w !! m)
        end
  end.

(** The keyword constraints of a query: none for a nil query and for a nil
    map. *)
Definition keywords_of (query : ptr loc) (w : world) : gmap string value :=
  match query with
  | None => ∅
  | Some q =>
      match queries w !! q with
      | None => ∅
      | Some qv =>
          match Keywords qv with
          | None => ∅
          | Some m => default ∅ (kwmaps w !! m)
          end
      end
  end.

End vocabulary.

(** ** Vocabulary of the further properties *)

Module numeral.

(** Whether [ParseInt] takes a minus sign off the string. *)
Definition negative (s : string) : bool :=
  match s with
  | String "-" _ => true
  | _ => false
  end.

(** The string after the sign [ParseInt] takes off, if there is one. *)
Definition unsigned (s : string) : string :=
  match s with
  | String "+" r => r
  | String "-" r => r
  | _ => s
  end.

(** The number the leading run of decimal digits stands for, read after
    [acc], and what follows the run. *)
Fixpoint leading_digits (s : string) (acc : Z) : Z * string :=
  match s with
  | EmptyString => (acc, EmptyString)
  | String c r =>
      if json.is_digit c then leading_digits r (acc * 10 + (strconv.byte_of c - 48))
      else (acc, s)
  end.

End numeral.

Module samples.
Import reference.

(** The row [nightly] as a caller may hold it, with derived fields left
    over from elsewhere. *)
Definition stale : @Schema opaque :=
  @mkSchema opaque 1 "nightly" 1 filters_7 (Some []) trigger_manual None "preheat".

(** A row whose filters text holds a [null] where a filter is expected. *)
Definition nulled : @Schema opaque := row 7 "nulled" 1 (text "[null]") trigger_manual.

(** A world with two queries of a caller, at the addresses 5 and 6, that
    share the keyword map at the address 1. *)
Definition sharing : @world opaque :=
  @mkWorld opaque ∅
    (<[6%positive := @mkQuery opaque (Some 1%positive) (1, 50)]>
       (<[5%positive := @mkQuery opaque (Some 1%positive) (2, 10)]> ∅))
    (<[1%positive := {[ "name" := VString "nightly" ]}]> ∅).

End samples.

(** * Theorems *)

(** ** strconv.ParseInt in base 10 and 32 bits *)

Section ParseInt_facts.
Import strconv decimal.

Lemma digit_of_digit c :
  json.is_digit c = true -> digit_of (byte_of c) = Some (byte_of c - 48).
Proof.
  unfold json.is_digit, digit_of. intros ->. reflexivity.
Qed.

Lemma digit_of_other c d :
  json.is_digit c = false -> digit_of (byte_of c) = Some d -> 10 <= d.
Proof.
  unfold json.is_digit, digit_of. intros ->.
  destruct (_ && _) eqn:E; [|discriminate].
  apply andb_prop in E as [E _]. apply Z.leb_le in E.
  intros [= <-]. lia.
Qed.

Lemma digits_value_ge s : forall acc v,
  0 <= acc -> digits_value s acc = Some v -> acc <= v.
Proof.
  induction s as [|c r IH]; simpl; intros acc v Hacc.
  - intros [= <-]. lia.
  - destruct (json.is_digit c) eqn:Ed; [|discriminate].
    intros Hv. apply IH in Hv.
    + unfold json.is_digit in Ed. apply andb_prop in Ed as [E1 E2].
      apply Z.leb_le in E1, E2. lia.
    + unfold json.is_digit in Ed. apply andb_prop in Ed as [E1 E2].
      apply Z.leb_le in E1, E2. lia.
Qed.

(** The loop of [ParseUint] computes the value of the digits, reports a
    range error as soon as the value exceeds [2^32 - 1], and a syntax error
    at the first byte that is no digit. *)
Lemma ParseUint_loop_spec s0 s : forall n,
  0 <= n <= maxVal32 ->
  match digits_value s n with
  | Some v =>
      if v <=? maxVal32
      then ParseUint_loop s0 10 cutoff10 maxVal32 s n = (v, None)
      else ParseUint_loop s0 10 cutoff10 maxVal32 s n
           = (maxVal32, Some (rangeError "ParseUint" s0))
  | None =>
      ParseUint_loop s0 10 cutoff10 maxVal32 s n = (0, Some (syntaxError "ParseUint" s0))
      \/ ParseUint_loop s0 10 cutoff10 maxVal32 s n
         = (maxVal32, Some (rangeError "ParseUint" s0))
  end.
Proof.
  induction s as [|c r IH]; intros n Hn; simpl.
  - destruct (n <=? maxVal32) eqn:E; [reflexivity|]. apply Z.leb_gt in E. lia.
  - destruct (json.is_digit c) eqn:Ed.
    + rewrite (digit_of_digit _ Ed).
      assert (Hd : 0 <= byte_of c - 48 <= 9).
      { unfold json.is_digit in Ed. apply andb_prop in Ed as [E1 E2].
        apply Z.leb_le in E1, E2. lia. }
      set (d := byte_of c - 48) in *.
      assert (Hc : cutoff10 = 1844674407370955162) by reflexivity.
      assert (Hm : maxVal32 = 4294967295) by reflexivity.
      destruct (10 <=? d) eqn:E10; [apply Z.leb_le in E10; lia|].
      destruct (cutoff10 <=? n) eqn:Ecut; [apply Z.leb_le in Ecut; lia|].
      assert (H1 : u64 (n * 10) = n * 10).
      { unfold u64. apply Z.mod_small. lia. }
      rewrite H1.
      assert (H2 : u64 (n * 10 + d) = n * 10 + d).
      { unfold u64. apply Z.mod_small. lia. }
      rewrite H2.
      destruct (n * 10 + d <? n * 10) eqn:Elt; [apply Z.ltb_lt in Elt; lia|].
      simpl. destruct (maxVal32 <? n * 10 + d) eqn:Emax.
      * apply Z.ltb_lt in Emax.
        destruct (digits_value r (n * 10 + d)) as [v|] eqn:Ev; [|now right].
        apply digits_value_ge in Ev; [|lia].
        destruct (v <=? maxVal32) eqn:E; [apply Z.leb_le in E; lia|reflexivity].
      * apply Z.ltb_ge in Emax. apply IH. lia.
    + destruct (digit_of (byte_of c)) as [d|] eqn:Edig; [|now left].
      pose proof (digit_of_other _ _ Ed Edig) as Hd.
      destruct (10 <=? d) eqn:E10; [now left|]. apply Z.leb_gt in E10. lia.
Qed.

Lemma ParseUint_10_32 c r :
  ParseUint (String c r) 10 32
  = ParseUint_loop (String c r) 10 cutoff10 maxVal32 (String c r) 0.
Proof. reflexivity. Qed.

Lemma ParseInt_unfold c r :
  ParseInt (String c r) 10 32
  = if Ascii.eqb c "+" then ParseInt_after (String c r) false (ParseUint r 10 32)
    else if Ascii.eqb c "-" then ParseInt_after (String c r) true (ParseUint r 10 32)
    else ParseInt_after (String c r) false (ParseUint (String c r) 10 32).
Proof.
  unfold ParseInt, ParseInt_after.
  destruct (Ascii.eqb c "+"); [|destruct (Ascii.eqb c "-")];
    destruct (ParseUint _ 10 32) as [un err]; reflexivity.
Qed.

Lemma int32_unfold c r :
  int32 (String c r)
  = let body := fun neg b =>
      match b with
      | EmptyString => None
      | String _ _ =>
          match digits_value b 0 with
          | Some v =>
              let n := if neg : bool then - v else v in
              if (- 2 ^ 31 <=? n) && (n <? 2 ^ 31) then Some n else None
          | None => None
          end
      end in
    if Ascii.eqb c "+" then body false r
    else if Ascii.eqb c "-" then body true r
    else body false (String c r).
Proof.
  unfold int32.
  destruct (Ascii.eqb c "+") eqn:E1.
  { apply Ascii.eqb_eq in E1. subst c. reflexivity. }
  destruct (Ascii.eqb c "-") eqn:E2.
  { apply Ascii.eqb_eq in E2. subst c. reflexivity. }
  destruct c as [[] [] [] [] [] [] [] []]; try reflexivity; discriminate.
Qed.

(** The answer of [ParseInt] on a body [b] of digits, after the sign. *)
Lemma ParseInt_after_spec s0 neg b :
  b <> EmptyString ->
  match digits_value b 0 with
  | Some v =>
      let n := if neg : bool then - v else v in
      if (- 2 ^ 31 <=? n) && (n <? 2 ^ 31)
      then ParseInt_after s0 neg (ParseUint b 10 32) = (n, None)
      else exists w, ParseInt_after s0 neg (ParseUint b 10 32)
                     = (w, Some (rangeError "ParseInt" s0))
  | None =>
      exists w r, ParseInt_after s0 neg (ParseUint b 10 32)
                  = (w, Some (mkNumError "ParseInt" s0 r))
                  /\ (r = ErrSyntax \/ r = ErrRange)
  end.
Proof.
  intros Hb. destruct b as [|c r]; [congruence|]. clear Hb.
  rewrite ParseUint_10_32.
  assert (Hm : maxVal32 = 4294967295) by reflexivity.
  pose proof (ParseUint_loop_spec (String c r) (String c r) 0 ltac:(lia)) as Hl.
  destruct (digits_value (String c r) 0) as [v|] eqn:Ev.
  - pose proof (digits_value_ge _ _ _ (Z.le_refl 0) Ev) as Hv.
    cbv zeta.
    destruct (v <=? maxVal32) eqn:Emax.
    + rewrite Hl. apply Z.leb_le in Emax. unfold ParseInt_after.
      destruct neg; simpl negb; simpl andb.
      * destruct (2 ^ 31 <? v) eqn:E1.
        -- apply Z.ltb_lt in E1.
           destruct ((- 2 ^ 31 <=? - v) && (- v <? 2 ^ 31)) eqn:E2.
           { apply andb_prop in E2 as [E2 _]. apply Z.leb_le in E2. lia. }
           eauto.
        -- apply Z.ltb_ge in E1.
           destruct ((- 2 ^ 31 <=? - v) && (- v <? 2 ^ 31)) eqn:E2.
           { f_equal. unfold i64.
             rewrite (Z.mod_small (v + 2 ^ 63)) by lia.
             replace (v + 2 ^ 63 - 2 ^ 63) with v by lia.
             rewrite Z.mod_small by lia. lia. }
           apply andb_false_iff in E2 as [E2|E2];
             [apply Z.leb_gt in E2|apply Z.ltb_ge in E2]; lia.
      * destruct (2 ^ 31 <=? v) eqn:E1.
        -- apply Z.leb_le in E1.
           destruct ((- 2 ^ 31 <=? v) && (v <? 2 ^ 31)) eqn:E2.
           { apply andb_prop in E2 as [_ E2]. apply Z.ltb_lt in E2. lia. }
           eauto.
        -- apply Z.leb_gt in E1.
           destruct ((- 2 ^ 31 <=? v) && (v <? 2 ^ 31)) eqn:E2.
           { f_equal. unfold i64. rewrite Z.mod_small by lia. lia. }
           apply andb_false_iff in E2 as [E2|E2];
             [apply Z.leb_gt in E2|apply Z.ltb_ge in E2]; lia.
    + rewrite Hl. apply Z.leb_gt in Emax. unfold ParseInt_after.
      simpl Err. cbv iota.
      destruct neg; simpl negb; simpl andb.
      * destruct ((- 2 ^ 31 <=? - v) && (- v <? 2 ^ 31)) eqn:E2.
        { apply andb_prop in E2 as [E2 _]. apply Z.leb_le in E2. lia. }
        destruct (2 ^ 31 <? maxVal32) eqn:E3; [eauto|].
        apply Z.ltb_ge in E3. lia.
      * destruct ((- 2 ^ 31 <=? v) && (v <? 2 ^ 31)) eqn:E2.
        { apply andb_prop in E2 as [_ E2]. apply Z.ltb_lt in E2. lia. }
        destruct (2 ^ 31 <=? maxVal32) eqn:E3; [eauto|].
        apply Z.leb_gt in E3. lia.
  - destruct Hl as [Hl|Hl]; rewrite Hl; unfold ParseInt_after; simpl Err; cbv iota.
    + eauto.
    + destruct neg; simpl negb; simpl andb.
      * destruct (2 ^ 31 <? maxVal32) eqn:E3; [eauto|].
        apply Z.ltb_ge in E3. lia.
      * destruct (2 ^ 31 <=? maxVal32) eqn:E3; [eauto|].
        apply Z.leb_gt in E3. lia.
Qed.

(** [ParseInt] in base 10 and 32 bits accepts exactly the decimal numerals
    of the 32-bit integers, and yields the number. *)
Lemma ParseInt_int32 s n :
  int32 s = Some n -> ParseInt s 10 32 = (n, None).
Proof.
  destruct s as [|c r]; [discriminate|].
  rewrite int32_unfold, ParseInt_unfold. cbv zeta.
  assert (Hg : forall neg b,
    match b with
    | EmptyString => None
    | String _ _ =>
        match digits_value b 0 with
        | Some v =>
            let n := if neg : bool then - v else v in
            if (- 2 ^ 31 <=? n) && (n <? 2 ^ 31) then Some n else None
        | None => None
        end
    end = Some n ->
    ParseInt_after (String c r) neg (ParseUint b 10 32) = (n, None)).
  { intros neg b Hb. destruct b as [|c' r']; [discriminate|].
    pose proof (ParseInt_after_spec (String c r) neg (String c' r') ltac:(discriminate)) as Hs.
    destruct (digits_value (String c' r') 0) as [v|]; [|discriminate].
    cbv zeta in Hb, Hs.
    destruct ((- 2 ^ 31 <=? (if neg then - v else v)) && ((if neg then - v else v) <? 2 ^ 31));
      [|discriminate].
    injection Hb as <-. exact Hs. }
  destruct (Ascii.eqb c "+"); [|destruct (Ascii.eqb c "-")]; intros Hi.
  - apply (Hg false r Hi).
  - apply (Hg true r Hi).
  - apply (Hg false (String c r) Hi).
Qed.

Lemma ParseInt_not_int32 s :
  int32 s = None ->
  exists w r, ParseInt s 10 32 = (w, Some (mkNumError "ParseInt" s r))
              /\ (r = ErrSyntax \/ r = ErrRange).
Proof.
  destruct s as [|c r].
  { intros _. exists 0, ErrSyntax. split; [reflexivity|now left]. }
  rewrite int32_unfold, ParseInt_unfold. cbv zeta.
  assert (Hg : forall neg b,
    match b with
    | EmptyString => None
    | String _ _ =>
        match digits_value b 0 with
        | Some v =>
            let n := if neg : bool then - v else v in
            if (- 2 ^ 31 <=? n) && (n <? 2 ^ 31) then Some n else None
        | None => None
        end
    end = None ->
    exists w r0, ParseInt_after (String c r) neg (ParseUint b 10 32)
                 = (w, Some (mkNumError "ParseInt" (String c r) r0))
                 /\ (r0 = ErrSyntax \/ r0 = ErrRange)).
  { intros neg b Hb. destruct b as [|c' r'].
    { exists 0, ErrSyntax. split; [reflexivity|now left]. }
    pose proof (ParseInt_after_spec (String c r) neg (String c' r') ltac:(discriminate)) as Hs.
    destruct (digits_value (String c' r') 0) as [v|]; [|exact Hs].
    cbv zeta in Hb, Hs.
    destruct ((- 2 ^ 31 <=? (if neg then - v else v)) && ((if neg then - v else v) <? 2 ^ 31));
      [discriminate|].
    destruct Hs as [w Hs]. exists w, ErrRange. split; [exact Hs|now right]. }
  destruct (Ascii.eqb c "+"); [|destruct (Ascii.eqb c "-")]; intros Hi.
  - apply (Hg false r Hi).
  - apply (Hg true r Hi).
  - apply (Hg false (String c r) Hi).
Qed.

Lemma digits_value_of_uint_acc d : forall p,
  digits_value (NilEmpty.string_of_uint d) (Z.pos p) = Some (Z.pos (Pos.of_uint_acc d p)).
Proof.
  induction d; intros p; simpl; try reflexivity;
    change (json.is_digit _) with true; cbv iota;
    rewrite <- IHd; f_equal; unfold byte_of; simpl; lia.
Qed.

Lemma digits_value_of_uint d :
  digits_value (NilEmpty.string_of_uint d) 0 = Some (Z.of_N (Pos.of_uint d)).
Proof.
  induction d; simpl; try reflexivity;
    change (json.is_digit _) with true; cbv iota;
    first [ exact IHd | apply digits_value_of_uint_acc ].
Qed.

Lemma string_of_uint_head d c r :
  NilEmpty.string_of_uint d = String c r ->
  Ascii.eqb c "+" = false /\ Ascii.eqb c "-" = false.
Proof.
  destruct d; simpl; intros [= <- _]; try discriminate; split; reflexivity.
Qed.

Lemma to_uint_nonempty p : NilEmpty.string_of_uint (Pos.to_uint p) <> EmptyString.
Proof.
  intros Hn. pose proof (DecimalPos.Unsigned.of_to p) as Hp.
  destruct (Pos.to_uint p); simpl in Hn; try discriminate.
Qed.

(** The decimal numeral of every 32-bit integer is read back as itself. *)
Lemma int32_of_Z n :
  - 2 ^ 31 <= n < 2 ^ 31 -> int32 (of_Z n) = Some n.
Proof.
  intros Hn. unfold of_Z. destruct n as [|p|p]; simpl.
  - reflexivity.
  - pose proof (to_uint_nonempty p) as Hne.
    pose proof (digits_value_of_uint (Pos.to_uint p)) as Hv.
    rewrite DecimalPos.Unsigned.of_to in Hv.
    destruct (NilEmpty.string_of_uint (Pos.to_uint p)) as [|c r] eqn:Es; [congruence|].
    apply string_of_uint_head in Es as [E1 E2].
    rewrite int32_unfold, E1, E2. cbv zeta beta. rewrite Hv. simpl Z.of_N.
    destruct ((- 2 ^ 31 <=? Z.pos p) && (Z.pos p <? 2 ^ 31)) eqn:E; [reflexivity|].
    apply andb_false_iff in E as [E|E]; [apply Z.leb_gt in E|apply Z.ltb_ge in E]; lia.
  - pose proof (to_uint_nonempty p) as Hne.
    pose proof (digits_value_of_uint (Pos.to_uint p)) as Hv.
    rewrite DecimalPos.Unsigned.of_to in Hv.
    rewrite int32_unfold. change (Ascii.eqb "-" "+") with false.
    change (Ascii.eqb "-" "-") with true. cbv iota zeta beta.
    destruct (NilEmpty.string_of_uint (Pos.to_uint p)) as [|c r] eqn:Es; [congruence|].
    rewrite Hv. simpl Z.of_N.
    destruct ((- 2 ^ 31 <=? - Z.pos p) && (- Z.pos p <? 2 ^ 31)) eqn:E; [reflexivity|].
    apply andb_false_iff in E as [E|E]; [apply Z.leb_gt in E|apply Z.ltb_ge in E]; lia.
Qed.

End ParseInt_facts.

(** ** The conversion of a float64 to an int *)

Section float_facts.
Context `{G : !GoImpl}.

Lemma i64_range n : int_min <= strconv.i64 n <= int_max.
Proof.
  unfold strconv.i64, int_min, int_max.
  pose proof (Z.mod_pos_bound (n + 2 ^ 63) (2 ^ 64) ltac:(lia)). lia.
Qed.

Lemma i64_small n : int_min <= n <= int_max -> strconv.i64 n = n.
Proof.
  unfold strconv.i64, int_min, int_max. intros Hn.
  rewrite Z.mod_small by lia. lia.
Qed.

Lemma fits_int_spec n : fits_int n = true <-> int_min <= n <= int_max.
Proof.
  unfold fits_int. rewrite andb_true_iff, !Z.leb_le. reflexivity.
Qed.

(** The result of the conversion is an int, whatever the float. *)
Lemma int_of_float64_range x : int_min <= int_of_float64 x <= int_max.
Proof.
  unfold int_of_float64.
  destruct (float64_trunc x) as [n|]; [|apply i64_range].
  destruct (fits_int n) eqn:E; [|apply i64_range].
  now apply fits_int_spec.
Qed.

(** It is the integer part where the integer part is an int. *)
Lemma int_of_float64_trunc x n :
  float64_trunc x = Some n -> int_min <= n <= int_max -> int_of_float64 x = n.
Proof.
  unfold int_of_float64. intros -> Hn.
  apply fits_int_spec in Hn. now rewrite Hn.
Qed.

(** Where the integer part is no int the conversion cannot yield it,
    whatever the implementation does. *)
Lemma int_of_float64_beyond x n :
  float64_trunc x = Some n -> ~ int_min <= n <= int_max -> int_of_float64 x <> n.
Proof.
  intros _ Hn He. apply Hn. rewrite <- He. apply int_of_float64_range.
Qed.

(** [float64_trunc] discards the fraction and keeps the sign: the integer
    part [n] of [(-1)^s * m * 2^e] has the sign [s] and the magnitude
    [floor (m * 2^e)]. *)
Lemma float64_trunc_finite s m e n :
  float64_trunc (S754_finite s m e) = Some n ->
  n = (if s then - Z.abs n else Z.abs n)
  /\ (0 <= e -> Z.abs n = Z.pos m * 2 ^ e)
  /\ (e < 0 -> Z.abs n * 2 ^ (- e) <= Z.pos m < (Z.abs n + 1) * 2 ^ (- e)).
Proof.
  simpl. intros [= <-].
  destruct (0 <=? e) eqn:Ee.
  - apply Z.leb_le in Ee. rewrite Z.shiftl_mul_pow2 by lia.
    assert (0 <= Z.pos m * 2 ^ e) by (apply Z.mul_nonneg_nonneg; lia).
    repeat split; destruct s; lia.
  - apply Z.leb_gt in Ee. rewrite Z.shiftr_div_pow2 by lia.
    assert (Hp : 0 < 2 ^ (- e)) by (apply Z.pow_pos_nonneg; lia).
    pose proof (Z.div_pos (Z.pos m) (2 ^ (- e)) ltac:(lia) Hp) as Hq.
    pose proof (Z.mul_div_le (Z.pos m) (2 ^ (- e)) Hp) as Hle.
    pose proof (Z.mul_succ_div_gt (Z.pos m) (2 ^ (- e)) Hp) as Hgt.
    set (q := Z.pos m / 2 ^ (- e)) in *.
    assert (Ha : Z.abs (if s then - q else q) = q) by (destruct s; lia).
    rewrite Ha. repeat split; try (destruct s; lia); nia.
Qed.

End float_facts.

(** ** The severity coercion *)

Section coercion.
Context `{O : Opaque} `{U : !Unmarshal} `{G : !GoImpl}.

Lemma parseFilters_loop_cons f rest :
  parseFilters_loop (Some f :: rest)
  = match coerce f with
    | inl err => Err (Wrapf (OfStrconv err) "parse filters")
    | inr f' =>
        match parseFilters_loop rest with
        | Ok rest' => Ok (Some f' :: rest')
        | Err e => Err e
        | Panic => Panic
        end
    end.
Proof.
  unfold coerce, is_severity. simpl.
  destruct (String.eqb (Type_ f) FilterTypeVulnerability); [|reflexivity].
  destruct (Value f); try reflexivity.
  destruct (strconv.ParseInt s 10 32) as [sev [err|]]; reflexivity.
Qed.

Lemma parseFilters_loop_nil rest : parseFilters_loop (None :: rest) = Panic.
Proof. reflexivity. Qed.

Lemma int_of_int64_int32 s n : decimal.int32 s = Some n -> int_of_int64 n = n.
Proof.
  intros Hs. unfold int_of_int64. apply i64_small.
  destruct s as [|c r]; [discriminate|].
  rewrite int32_unfold in Hs. cbv zeta beta in Hs.
  assert (Hg : forall (neg : bool) b,
    match b with
    | EmptyString => None
    | String _ _ =>
        match decimal.digits_value b 0 with
        | Some v =>
            if (- 2 ^ 31 <=? (if neg then - v else v)) && ((if neg then - v else v) <? 2 ^ 31)
            then Some (if neg then - v else v) else None
        | None => None
        end
    end = Some n -> - 2 ^ 31 <= n < 2 ^ 31).
  { intros neg b. destruct b as [|c' r']; [discriminate|]. cbv iota.
    destruct (decimal.digits_value (String c' r') 0) as [v|]; [|discriminate].
    destruct (_ && _) eqn:E; [|discriminate]. intros [= <-].
    apply andb_prop in E as [E1 E2]. apply Z.leb_le in E1. apply Z.ltb_lt in E2. lia. }
  assert (Hr : - 2 ^ 31 <= n < 2 ^ 31).
  { destruct (Ascii.eqb c "+"); [|destruct (Ascii.eqb c "-")].
    - apply (Hg false r Hs).
    - apply (Hg true r Hs).
    - apply (Hg false (String c r) Hs). }
  unfold int_min, int_max. lia.
Qed.

(** A turn that leaves a filter behind coerces it as specified. *)
Lemma coerce_coerced f f' : coerce f = inr f' -> severity_coerced f f'.
Proof.
  unfold coerce, severity_coerced. destruct (is_severity f); [|intros [= <-]; auto].
  destruct (Value f) as [| | x | str | | | |] eqn:Ev; try (intros [= <-]; auto).
  - split; [reflexivity|]. exists (int_of_float64 x). split; [reflexivity|].
    split; [apply int_of_float64_range|].
    intros t Ht Hr. now apply int_of_float64_trunc.
  - destruct (decimal.int32 str) as [n|] eqn:Ei.
    + rewrite (ParseInt_int32 _ _ Ei). intros [= <-]. split; [reflexivity|].
      exists n. split; [reflexivity|]. simpl. f_equal. eapply int_of_int64_int32; eauto.
    + destruct (ParseInt_not_int32 _ Ei) as (w & r & -> & _). discriminate.
Qed.

(** A turn ends the loop exactly on a bad severity, with the error of
    [ParseInt]. *)
Lemma coerce_error f err :
  coerce f = inl err ->
  bad_severity f = true
  /\ is_severity f = true
  /\ exists str w, Value f = VString str /\ decimal.int32 str = None
                   /\ strconv.ParseInt str 10 32 = (w, Some err).
Proof.
  unfold coerce, bad_severity. destruct (is_severity f); [|discriminate].
  destruct (Value f) as [| | x | str | | | |] eqn:Ev; try discriminate.
  destruct (decimal.int32 str) as [n|] eqn:Ei.
  - rewrite (ParseInt_int32 _ _ Ei). discriminate.
  - destruct (ParseInt_not_int32 _ Ei) as (w & r & Hp & _). rewrite Hp.
    intros [= <-]. split; [reflexivity|]. split; [reflexivity|].
    exists str, w. auto.
Qed.

Lemma coerce_bad f : bad_severity f = true -> exists err, coerce f = inl err.
Proof.
  unfold bad_severity, coerce. intros Hb. apply andb_prop in Hb as [-> Hv].
  destruct (Value f) as [| | x | str | | | |]; try discriminate.
  destruct (decimal.int32 str) as [n|] eqn:Ei; [discriminate|].
  destruct (ParseInt_not_int32 _ Ei) as (w & r & -> & _). eauto.
Qed.

Lemma coerce_good f : bad_severity f = false -> exists f', coerce f = inr f'.
Proof.
  intros Hn. destruct (coerce f) as [err|f'] eqn:E; [|eauto].
  apply coerce_error in E as [Hb _]. congruence.
Qed.

(** Over a sequence of filters none of which is a bad severity the loop
    runs to its end and coerces every filter, in the order of the
    sequence. *)
Lemma parseFilters_loop_ok (fs : list Filter) :
  Forall (fun f => bad_severity f = false) fs ->
  exists fs', parseFilters_loop (Some <$> fs) = Ok (Some <$> fs')
              /\ Forall2 (fun f f' => coerce f = inr f') fs fs'.
Proof.
  induction 1 as [|f fs Hf _ (fs' & IH & IH2)].
  - exists []. split; [reflexivity|constructor].
  - destruct (coerce_good _ Hf) as [f' Ef].
    exists (f' :: fs'). rewrite fmap_cons, parseFilters_loop_cons, Ef, IH.
    split; [reflexivity|now constructor].
Qed.

(** The loop ends with the error of the first bad severity. *)
Lemma parseFilters_loop_error (pre post : list Filter) f err :
  Forall (fun f => bad_severity f = false) pre ->
  coerce f = inl err ->
  parseFilters_loop (Some <$> (pre ++ f :: post)%list) = Err (Wrapf (OfStrconv err) "parse filters").
Proof.
  intros Hpre Hf. induction Hpre as [|g pre Hg _ IH]; simpl app; rewrite fmap_cons.
  - rewrite parseFilters_loop_cons, Hf. reflexivity.
  - destruct (coerce_good _ Hg) as [g' Eg].
    rewrite parseFilters_loop_cons, Eg, IH. reflexivity.
Qed.

(** A sequence with a bad severity has a first one. *)
Lemma first_bad_severity (fs : list Filter) :
  Exists (fun f => bad_severity f = true) fs ->
  exists pre f post, fs = (pre ++ f :: post)%list
                     /\ Forall (fun f => bad_severity f = false) pre
                     /\ bad_severity f = true.
Proof.
  induction fs as [|g fs IH]; intros Hex; [inversion Hex|].
  destruct (bad_severity g) eqn:Hg.
  - exists [], g, fs. split; [reflexivity|]. split; [constructor|exact Hg].
  - inversion Hex as [? ? Hb|? ? Hex']; subst; [congruence|].
    destruct (IH Hex') as (pre & f & post & -> & Hpre & Hf).
    exists (g :: pre), f, post.
    split; [reflexivity|]. split; [now constructor|exact Hf].
Qed.

(** The loop panics at a nil element it reaches. *)
Lemma parseFilters_loop_panic (pre : list Filter) (post : list (ptr Filter)) :
  Forall (fun f => bad_severity f = false) pre ->
  parseFilters_loop ((Some <$> pre) ++ None :: post)%list = Panic.
Proof.
  induction 1 as [|g pre Hg _ IH]; [reflexivity|].
  destruct (coerce_good _ Hg) as [g' Eg].
  rewrite fmap_cons. simpl app. rewrite parseFilters_loop_cons, Eg, IH. reflexivity.
Qed.

End coercion.

(** ** The normalization pass *)

Section normalization.
Context `{O : Opaque} `{U : !Unmarshal} `{G : !GoImpl}.

Lemma persisted_set_Filters s fs : persisted (set_Filters s fs) = persisted s.
Proof. reflexivity. Qed.

Lemma persisted_set_Trigger s t : persisted (set_Trigger s t) = persisted s.
Proof. reflexivity. Qed.

Lemma normal_form_persisted s s' : normal_form s = Ok s' -> persisted s' = persisted s.
Proof.
  unfold normal_form. destruct (parseFilters _); try discriminate.
  destruct (parseTrigger _); try discriminate. now intros [= <-].
Qed.

(** The verdict on a schema is decided by the fields the pass does not
    write. *)
Lemma normal_form_verdict s1 s2 :
  persisted s1 = persisted s2 ->
  match normal_form s1, normal_form s2 with
  | Ok _, Ok _ => True
  | Err e1, Err e2 => e1 = e2
  | Panic, Panic => True
  | _, _ => False
  end.
Proof.
  unfold persisted, normal_form. intros [= _ _ _ -> -> _].
  destruct (parseFilters _); auto. destruct (parseTrigger _); auto.
Qed.

(** The pass is idempotent. *)
Lemma normal_form_idem s s' : normal_form s = Ok s' -> normal_form s' = Ok s'.
Proof.
  unfold normal_form.
  destruct (parseFilters (FiltersStr s)) as [fs| |] eqn:Ef; try discriminate.
  destruct (parseTrigger (TriggerStr s)) as [t| |] eqn:Et; try discriminate.
  intros [= <-]. simpl. rewrite Ef, Et. reflexivity.
Qed.

(** [parsePolicy] on a schema in the heap, by the outcome of the pass. *)
Lemma parsePolicy_normal_form l h s :
  h !! l = Some s ->
  match normal_form s with
  | Ok s' => parsePolicy (Some l) h = (<[l := s']> h, Ok l)
  | Err e =>
      parsePolicy (Some l) h = (h, Err e)
      \/ exists fs, parseFilters (FiltersStr s) = Ok fs
                    /\ parsePolicy (Some l) h = (<[l := set_Filters s fs]> h, Err e)
  | Panic =>
      parsePolicy (Some l) h = (h, Panic)
      \/ exists fs, parseFilters (FiltersStr s) = Ok fs
                    /\ parsePolicy (Some l) h = (<[l := set_Filters s fs]> h, Panic)
  end.
Proof.
  intros Hl. unfold normal_form, parsePolicy. rewrite Hl.
  destruct (parseFilters (FiltersStr s)) as [fs| |]; auto.
  change (TriggerStr (set_Filters s fs)) with (TriggerStr s).
  destruct (parseTrigger (TriggerStr s)) as [t| |]; eauto.
  now rewrite insert_insert_eq.
Qed.

Lemma parsePolicy_verdict p h :
  match verdict p h with
  | Ok _ => exists l s s', p = Some l /\ h !! l = Some s /\ normal_form s = Ok s'
                           /\ parsePolicy p h = (<[l := s']> h, Ok l)
  | Err e => exists h', parsePolicy p h = (h', Err e)
  | Panic => exists h', parsePolicy p h = (h', Panic)
  end.
Proof.
  unfold verdict. destruct p as [l|]; [|simpl; eauto].
  destruct (h !! l) as [s|] eqn:Hl.
  - pose proof (parsePolicy_normal_form l h s Hl) as Hp.
    destruct (normal_form s) as [s'| |] eqn:En.
    + exists l, s, s'. repeat split; auto.
    + destruct Hp as [Hp|(fs & _ & Hp)]; eauto.
    + destruct Hp as [Hp|(fs & _ & Hp)]; eauto.
  - unfold parsePolicy. rewrite Hl. eauto.
Qed.

(** Whatever the outcome, the pass writes the two derived fields at most:
    every other field of every schema of the heap is as before, and no
    schema appears or disappears. *)
Lemma parsePolicy_persisted p h :
  persisted <$> (parsePolicy p h).1 = persisted <$> h.
Proof.
  destruct p as [l|]; [|reflexivity].
  destruct (h !! l) as [s|] eqn:Hl.
  - assert (Hins : forall s', persisted s' = persisted s ->
                              persisted <$> <[l := s']> h = persisted <$> h).
    { intros s' Hs. rewrite fmap_insert, Hs. apply insert_id.
      now rewrite lookup_fmap, Hl. }
    pose proof (parsePolicy_normal_form l h s Hl) as Hp.
    destruct (normal_form s) as [s'| |] eqn:En.
    + rewrite Hp. simpl. apply Hins. now apply normal_form_persisted.
    + destruct Hp as [->|(fs & _ & ->)]; [reflexivity|]. simpl. now apply Hins.
    + destruct Hp as [->|(fs & _ & ->)]; [reflexivity|]. simpl. now apply Hins.
  - unfold parsePolicy. now rewrite Hl.
Qed.

Lemma verdict_persisted p h h' :
  persisted <$> h = persisted <$> h' -> verdict p h = verdict p h'.
Proof.
  intros Hh. destruct p as [l|]; [|reflexivity]. unfold verdict.
  assert (Hl : persisted <$> (h !! l) = persisted <$> (h' !! l)).
  { now rewrite <- !lookup_fmap, Hh. }
  destruct (h !! l) as [s|], (h' !! l) as [s'|]; try discriminate; [|reflexivity].
  assert (Hs : persisted s = persisted s') by (simpl in Hl; congruence).
  pose proof (normal_form_verdict s s' Hs) as Hv.
  destruct (normal_form s), (normal_form s'); try contradiction; congruence.
Qed.

Lemma first_failure_persisted page h h' :
  persisted <$> h = persisted <$> h' -> first_failure page h = first_failure page h'.
Proof.
  intros Hh. induction page as [|p rest IH]; [reflexivity|]. simpl.
  now rewrite (verdict_persisted p h h' Hh), IH.
Qed.

(** The loop of [ListPolicies] returns the page it was given when every
    schema normalizes, and otherwise ends as the pass ends on the first
    schema that does not. *)
Lemma ListPolicies_loop_result page : forall h,
  (ListPolicies_loop page h).2
  = match first_failure page h with
    | Ok _ => Ok page
    | Err e => Err e
    | Panic => Panic
    end.
Proof.
  induction page as [|p rest IH]; intros h; [reflexivity|]. simpl.
  pose proof (parsePolicy_verdict p h) as Hp.
  pose proof (parsePolicy_persisted p h) as Hper.
  destruct (verdict p h) as [[]| |].
  - destruct Hp as (l & s & s' & -> & Hl & Hn & Hp). rewrite Hp in Hper |- *.
    simpl in Hper. specialize (IH (<[l := s']> h)).
    rewrite (first_failure_persisted rest _ _ Hper) in IH.
    destruct (ListPolicies_loop rest (<[l := s']> h)) as [h1 [out| |]];
      destruct (first_failure rest h) as [[]| |]; simpl in IH |- *;
      try discriminate; try (injection IH as ->); reflexivity.
  - destruct Hp as [h' ->]. reflexivity.
  - destruct Hp as [h' ->]. reflexivity.
Qed.

Lemma ListPolicies_loop_persisted page : forall h,
  persisted <$> (ListPolicies_loop page h).1 = persisted <$> h.
Proof.
  induction page as [|p rest IH]; intros h; [reflexivity|]. simpl.
  pose proof (parsePolicy_persisted p h) as Hper.
  destruct (parsePolicy p h) as [h1 [l| |]]; simpl in *; try exact Hper.
  specialize (IH h1).
  destruct (ListPolicies_loop rest h1) as [h2 [out| |]]; simpl in *; congruence.
Qed.

(** The heap the loop leaves when every schema of the page normalizes:
    the schemas of the page are normalized, the others are as before. *)
Lemma ListPolicies_loop_heap page : forall h,
  first_failure page h = Ok tt ->
  forall l, (ListPolicies_loop page h).1 !! l
            = if decide (Some l ∈ page) then h !! l ≫= normalized else h !! l.
Proof.
  induction page as [|p rest IH]; intros h Hok l.
  - simpl. destruct (decide (Some l ∈ [])) as [Hin|]; [|reflexivity]. inversion Hin.
  - simpl in Hok |- *.
    pose proof (parsePolicy_verdict p h) as Hp.
    pose proof (parsePolicy_persisted p h) as Hper.
    destruct (verdict p h) as [[]| |]; try discriminate.
    destruct Hp as (l0 & s & s' & -> & Hl0 & Hn & Hp). rewrite Hp in Hper |- *.
    simpl in Hper.
    rewrite <- (first_failure_persisted rest _ _ Hper) in Hok.
    specialize (IH _ Hok l).
    pose proof (ListPolicies_loop_result rest (<[l0 := s']> h)) as Hres.
    rewrite Hok in Hres.
    destruct (ListPolicies_loop rest (<[l0 := s']> h)) as [h1 [out| |]];
      simpl in Hres; try discriminate.
    simpl in IH |- *. rewrite IH.
    destruct (decide (l = l0)) as [->|Hne].
    + rewrite lookup_insert_eq, Hl0. simpl.
      assert (Hs' : normalized s' = Some s').
      { unfold normalized. now rewrite (normal_form_idem _ _ Hn). }
      assert (Hs : normalized s = Some s').
      { unfold normalized. now rewrite Hn. }
      rewrite Hs', Hs.
      repeat case_decide; try reflexivity.
      all: exfalso; match goal with Hnin : ~ _ |- _ => apply Hnin; constructor end.
    + rewrite lookup_insert_ne by congruence.
      repeat case_decide; try reflexivity.
      * exfalso. match goal with Hnin : ~ _ |- _ => apply Hnin end. now constructor.
      * exfalso. match goal with Hnin : ~ _, Hin : _ ∈ _ :: _ |- _ =>
          apply Hnin; inversion Hin; subst; [congruence|assumption] end.
Qed.

End normalization.

(** ** The claims on the normalization pass *)

Section pass_claims.
Context `{O : Opaque} `{U : !Unmarshal} `{G : !GoImpl}.

(** C3.  Given a nil schema reference the normalization pass fails with the
    error [New "policy schema can not be nil"], whose kind is
    [InvalidInput]; it writes nothing and does not panic. *)
Theorem parsePolicy_nil_schema (h : gmap loc Schema) :
  parsePolicy None h = (h, Err (New "policy schema can not be nil"))
  /\ kind_of (New "policy schema can not be nil") = InvalidInput
  /\ (parsePolicy None h).2 <> Panic.
Proof.
  split; [reflexivity|]. split; [reflexivity|]. discriminate.
Qed.

(** C5.  On a schema whose raw filters text and raw trigger text are both
    empty the normalization pass succeeds: it returns the schema, with a
    nil filters slice and a nil trigger. *)
Theorem parsePolicy_empty_raw (h : gmap loc Schema) (l : loc) (s : Schema) :
  h !! l = Some s ->
  FiltersStr s = EmptyString ->
  TriggerStr s = EmptyString ->
  parseFilters (FiltersStr s) = Ok None
  /\ parseTrigger (TriggerStr s) = Ok None
  /\ exists s',
       parsePolicy (Some l) h = (<[l := s']> h, Ok l)
       /\ Filters s' = None /\ Trigger s' = None /\ persisted s' = persisted s.
Proof.
  intros Hl Hf Ht.
  assert (Ef : parseFilters (FiltersStr s) = Ok None) by now rewrite Hf.
  assert (Et : parseTrigger (TriggerStr s) = Ok None) by now rewrite Ht.
  split; [exact Ef|]. split; [exact Et|].
  exists (set_Trigger (set_Filters s None) None).
  pose proof (parsePolicy_normal_form l h s Hl) as Hp.
  unfold normal_form in Hp. rewrite Ef, Et in Hp.
  split; [exact Hp|]. repeat split.
Qed.

(** C9.  When the normalization pass succeeds it returns the pointer it was
    given, and the heap differs at that address only: the schema there has
    the decoded filters and the decoded trigger in its two derived fields
    and every other field as before. *)
Theorem parsePolicy_frame (schema : ptr loc) (h h' : gmap loc Schema) (l : loc) :
  parsePolicy schema h = (h', Ok l) ->
  schema = Some l
  /\ exists s filters trigger,
       h !! l = Some s
       /\ parseFilters (FiltersStr s) = Ok filters
       /\ parseTrigger (TriggerStr s) = Ok trigger
       /\ h' = <[l := {| ID := ID s; Name := Name s; ProjectID := ProjectID s;
                         FiltersStr := FiltersStr s; Filters := filters;
                         TriggerStr := TriggerStr s; Trigger := trigger;
                         Rest := Rest s |}]> h
       /\ (forall l', l' <> l -> h' !! l' = h !! l')
       /\ dom h' = dom h.
Proof.
  intros Hp. destruct schema as [l0|]; [|discriminate].
  unfold parsePolicy in Hp. destruct (h !! l0) as [s|] eqn:Hl; [|discriminate].
  destruct (parseFilters (FiltersStr s)) as [filters| |] eqn:Ef; try discriminate.
  change (TriggerStr (set_Filters s filters)) with (TriggerStr s) in Hp.
  destruct (parseTrigger (TriggerStr s)) as [trigger| |] eqn:Et; try discriminate.
  injection Hp as <- <-. split; [reflexivity|].
  exists s, filters, trigger. rewrite insert_insert_eq.
  split; [exact Hl|]. split; [exact Ef|]. split; [exact Et|].
  split; [reflexivity|]. split.
  - intros l' Hne. now rewrite lookup_insert_ne.
  - apply dom_insert_lookup_L. now rewrite Hl.
Qed.

End pass_claims.

(** ** The claims on the manager *)

Section manager_claims.
Context `{O : Opaque} `{U : !Unmarshal} `{G : !GoImpl} `{D : !dao.DAO}.

Lemma normalizes_verdict p h : normalizes p h <-> verdict p h = Ok tt.
Proof.
  pose proof (parsePolicy_verdict p h) as Hp. unfold normalizes. split.
  - intros (h' & l & Hn). destruct (verdict p h) as [[]| |]; [reflexivity| |];
      destruct Hp as [h1 Hp]; congruence.
  - intros Hv. rewrite Hv in Hp. destruct Hp as (l & s & s' & _ & _ & _ & Hp). eauto.
Qed.

Lemma fails_with_verdict p h e : fails_with p h e <-> verdict p h = Err e.
Proof.
  pose proof (parsePolicy_verdict p h) as Hp. unfold fails_with. split.
  - intros (h' & Hn). destruct (verdict p h) as [[]|e'|].
    + destruct Hp as (l & s & s' & _ & _ & _ & Hp). congruence.
    + destruct Hp as [h1 Hp]. congruence.
    + destruct Hp as [h1 Hp]. congruence.
  - intros Hv. now rewrite Hv in Hp.
Qed.

Lemma panics_verdict p h : panics p h <-> verdict p h = Panic.
Proof.
  pose proof (parsePolicy_verdict p h) as Hp. unfold panics. split.
  - intros (h' & Hn). destruct (verdict p h) as [[]|e'|].
    + destruct Hp as (l & s & s' & _ & _ & _ & Hp). congruence.
    + destruct Hp as [h1 Hp]. congruence.
    + reflexivity.
  - intros Hv. now rewrite Hv in Hp.
Qed.

Lemma first_failure_ok page h :
  first_failure page h = Ok tt <-> forall p, p ∈ page -> verdict p h = Ok tt.
Proof.
  induction page as [|p rest IH]; simpl.
  - split; [intros _ p Hin; inversion Hin|reflexivity].
  - destruct (verdict p h) as [[]| |] eqn:Ev.
    + rewrite IH. split.
      * intros Hr q Hin. inversion Hin; subst; auto.
      * intros Hr q Hin. apply Hr. now constructor.
    + split; [discriminate|]. intros Hr.
      specialize (Hr p ltac:(constructor)). congruence.
    + split; [discriminate|]. intros Hr.
      specialize (Hr p ltac:(constructor)). congruence.
Qed.

(** Without a panic on the page, the first failure is the error of one of
    its schemas. *)
Lemma first_failure_err page h :
  (forall p, p ∈ page -> verdict p h <> Panic) ->
  (exists p, p ∈ page /\ verdict p h <> Ok tt) ->
  exists p e, p ∈ page /\ verdict p h = Err e /\ first_failure page h = Err e.
Proof.
  induction page as [|p rest IH]; intros Hnp (q & Hin & Hq); [inversion Hin|].
  simpl. destruct (verdict p h) as [[]|e|] eqn:Ev.
  - destruct IH as (p' & e & Hin' & Hv & Hf).
    + intros p' Hin'. apply Hnp. now constructor.
    + inversion Hin; subst; [congruence|eauto].
    + exists p', e. split; [now constructor|auto].
  - exists p, e. split; [constructor|auto].
  - exfalso. apply (Hnp p); [constructor|exact Ev].
Qed.

(** The first failure of a page is the error of the pass on the first
    schema it fails on. *)
Lemma first_failure_first (pre post : list (ptr loc)) p h e :
  (forall q, q ∈ pre -> verdict q h = Ok tt) ->
  verdict p h = Err e ->
  first_failure (pre ++ p :: post)%list h = Err e.
Proof.
  intros Hpre Hp. induction pre as [|q pre IH]; simpl.
  - now rewrite Hp.
  - rewrite (Hpre q) by constructor. apply IH.
    intros q' Hin. apply Hpre. now constructor.
Qed.

(** [ListPolicies] returns no list for a page with a schema that does not
    normalize. *)
Lemma ListPolicies_no_list query w h page :
  dao.List query w = (h, Ok page) ->
  (exists p, p ∈ elems page /\ ~ normalizes p h) ->
  forall out, (ListPolicies query w).2 <> Ok out.
Proof.
  intros Hd (p & Hin & Hn) out. unfold ListPolicies. rewrite Hd.
  pose proof (ListPolicies_loop_result (elems page) h) as Hres.
  destruct (ListPolicies_loop (elems page) h) as [h1 r]. simpl in Hres.
  destruct (first_failure (elems page) h) as [[]| |] eqn:Ef.
  - exfalso. apply Hn, normalizes_verdict.
    now apply (proj1 (first_failure_ok _ _) Ef).
  - subst r. discriminate.
  - subst r. discriminate.
Qed.

(** What holds of the listing where the pass panics on no schema (the
    panic is the defect shown under C4, among the examples).  For a page
    the store returned: if every schema of the page normalizes,
    [ListPolicies] returns the page, every schema of it normalized in the
    heap and every other schema as it was; if some schema of the page does
    not normalize, it returns no list at all; if the pass fails on some
    schema, and panics on none, it returns an error, which is the error of
    the pass on a schema of the page; and the error is that of the first
    schema the pass fails on, the schemas before it normalizing. *)
Theorem ListPolicies_atomic (query : ptr loc) (w : world) (h : gmap loc Schema)
  (page : slice (ptr loc)) :
  dao.List query w = (h, Ok page) ->
  ((forall p, p ∈ elems page -> normalizes p h) ->
     (ListPolicies query w).2 = Ok page
     /\ forall l, schemas (ListPolicies query w).1 !! l
                  = if decide (Some l ∈ elems page) then h !! l ≫= normalized else h !! l)
  /\ ((exists p, p ∈ elems page /\ ~ normalizes p h) ->
        forall out, (ListPolicies query w).2 <> Ok out)
  /\ ((exists p e, p ∈ elems page /\ fails_with p h e) ->
      (forall p, p ∈ elems page -> ~ panics p h) ->
        exists p e, p ∈ elems page /\ fails_with p h e
                    /\ (ListPolicies query w).2 = Err e)
  /\ (forall pre p post e,
        elems page = (pre ++ p :: post)%list ->
        (forall q, q ∈ pre -> normalizes q h) ->
        fails_with p h e ->
        (ListPolicies query w).2 = Err e).
Proof.
  intros Hd. split; [|split; [apply (ListPolicies_no_list _ _ _ _ Hd)|split]];
    unfold ListPolicies; rewrite Hd;
    pose proof (ListPolicies_loop_result (elems page) h) as Hres;
    pose proof (ListPolicies_loop_heap (elems page) h) as Hheap;
    destruct (ListPolicies_loop (elems page) h) as [h1 r] eqn:El; simpl in Hres, Hheap.
  - intros Hall.
    assert (Hok : first_failure (elems page) h = Ok tt).
    { apply first_failure_ok. intros p Hin. now apply normalizes_verdict, Hall. }
    rewrite Hok in Hres. subst r. simpl. split.
    + destruct page; reflexivity.
    + exact (Hheap Hok).
  - intros (p & e & Hin & Hf) Hnp.
    destruct (first_failure_err (elems page) h) as (p' & e' & Hin' & Hv & Hff).
    + intros q Hq Hpanic. apply (Hnp q Hq). now apply panics_verdict.
    + exists p. split; [exact Hin|]. apply fails_with_verdict in Hf. congruence.
    + exists p', e'. split; [exact Hin'|]. split; [now apply fails_with_verdict|].
      rewrite Hff in Hres. now subst r.
  - intros pre p post e Hpage Hpre Hf. simpl.
    rewrite Hpage, (first_failure_first pre post p h e) in Hres.
    + now subst r.
    + intros q Hq. now apply normalizes_verdict, Hpre.
    + now apply fails_with_verdict.
Qed.

(** [ListPolicies] leaves the queries and their keyword maps alone. *)
Lemma ListPolicies_queries query w :
  queries (ListPolicies query w).1 = queries w
  /\ kwmaps (ListPolicies query w).1 = kwmaps w.
Proof.
  unfold ListPolicies. destruct (dao.List query w) as [h [page| |]]; auto.
  destruct (ListPolicies_loop (elems page) h) as [h1 [l| |]]; auto.
Qed.

(** On a query that has the project among its keywords [projectQuery]
    changes nothing. *)
Lemma projectQuery_again project q m paging kw (w : world) :
  queries w !! q = Some {| Keywords := Some m; Paging := paging |} ->
  kwmaps w !! m = Some (<["project_id" := VInt64 project]> kw) ->
  projectQuery project (Some q) w = Some (q, w).
Proof.
  intros Hq Hm. unfold projectQuery. rewrite Hq. simpl.
  rewrite Hm. rewrite insert_insert_eq, (insert_id _ _ _ Hm).
  now destruct w.
Qed.

(** The query [ListPoliciesByProject] goes on with. *)
Lemma projectQuery_spec (project : Z) (query : ptr loc) (w : world) :
  valid_query query w ->
  exists q m w',
    projectQuery project query w = Some (q, w')
    /\ ListPoliciesByProject project query w = ListPolicies (Some q) w'
    /\ schemas w' = schemas w
    /\ (exists paging, queries w' !! q = Some {| Keywords := Some m; Paging := paging |})
    /\ kwmaps w' !! m = Some (<["project_id" := VInt64 project]> (keywords_of query w))
    /\ (query = None ->
           (q ∉ dom (queries w)) /\ (m ∉ dom (kwmaps w))
           /\ queries w' !! q = Some {| Keywords := Some m; Paging := paging_zero |})
    /\ (forall q0 qv, query = Some q0 -> queries w !! q0 = Some qv ->
           q = q0
           /\ queries w' !! q0 = Some {| Keywords := Some m; Paging := Paging qv |}
           /\ (forall m0, Keywords qv = Some m0 -> m = m0 /\ queries w' = queries w)
           /\ (Keywords qv = None -> (m ∉ dom (kwmaps w))))
    /\ (keywords_of query w = ∅ ->
           keywords_of (Some q) w' = {[ "project_id" := VInt64 project ]})
    /\ projectQuery project (Some q) w' = Some (q, w')
    /\ queries (ListPoliciesByProject project query w).1 = queries w'
    /\ kwmaps (ListPoliciesByProject project query w).1 = kwmaps w'.
Proof.
  intros Hv.
  assert (Hfin : forall q m w' paging kw,
    projectQuery project query w = Some (q, w') ->
    schemas w' = schemas w ->
    queries w' !! q = Some {| Keywords := Some m; Paging := paging |} ->
    kwmaps w' !! m = Some (<["project_id" := VInt64 project]> kw) ->
    ListPoliciesByProject project query w = ListPolicies (Some q) w'
    /\ schemas w' = schemas w
    /\ (exists paging, queries w' !! q = Some {| Keywords := Some m; Paging := paging |})
    /\ (keywords_of query w = kw ->
         kwmaps w' !! m = Some (<["project_id" := VInt64 project]> (keywords_of query w))
         /\ (keywords_of query w = ∅ ->
              keywords_of (Some q) w' = {[ "project_id" := VInt64 project ]}))
    /\ projectQuery project (Some q) w' = Some (q, w')
    /\ queries (ListPoliciesByProject project query w).1 = queries w'
    /\ kwmaps (ListPoliciesByProject project query w).1 = kwmaps w').
  { intros q m w' paging kw Hp Hs Hq Hm.
    assert (HL : ListPoliciesByProject project query w = ListPolicies (Some q) w').
    { unfold ListPoliciesByProject. now rewrite Hp. }
    split; [exact HL|]. split; [exact Hs|]. split; [eauto|]. split.
    - intros ->. split; [exact Hm|]. intros He.
      unfold keywords_of at 1. rewrite Hq. simpl. rewrite Hm, He. reflexivity.
    - split; [eapply projectQuery_again; eauto|]. rewrite HL. apply ListPolicies_queries. }
  destruct query as [q0|].
  - destruct Hv as (qv & Hq0 & Hk).
    destruct (Keywords qv) as [m0|] eqn:Ek.
    + destruct Hk as [kw Hkw].
      exists q0, m0,
        {| schemas := schemas w; queries := queries w;
           kwmaps := <[m0 := <["project_id" := VInt64 project]> kw]> (kwmaps w) |}.
      assert (Hp : projectQuery project (Some q0) w
                   = Some (q0, {| schemas := schemas w; queries := queries w;
                                  kwmaps := <[m0 := <["project_id" := VInt64 project]> kw]>
                                              (kwmaps w) |})).
      { unfold projectQuery. rewrite Hq0, Ek, Hkw. reflexivity. }
      assert (Hqv : qv = {| Keywords := Some m0; Paging := Paging qv |}).
      { destruct qv. simpl in Ek. now subst. }
      assert (Hkey : keywords_of (Some q0) w = kw).
      { unfold keywords_of. now rewrite Hq0, Ek, Hkw. }
      destruct (Hfin q0 m0 _ (Paging qv) kw Hp eq_refl) as (F1 & F2 & F3 & F4 & F5 & F6 & F7).
      { simpl. now rewrite Hq0, Hqv at 1. }
      { simpl. apply lookup_insert_eq. }
      destruct (F4 Hkey) as [F4a F4b].
      split; [exact Hp|]. split; [exact F1|]. split; [exact F2|]. split; [exact F3|].
      split; [exact F4a|]. split; [discriminate|]. split.
      { intros q1 qv1 [= <-] Hq1. rewrite Hq0 in Hq1. injection Hq1 as <-.
        split; [reflexivity|]. split; [simpl; now rewrite Hq0, Hqv at 1|]. split.
        - intros m1 Hm1. rewrite Ek in Hm1. injection Hm1 as <-. split; reflexivity.
        - rewrite Ek. discriminate. }
      split; [exact F4b|]. split; [exact F5|]. split; [exact F6|exact F7].
    + set (m := fresh (dom (kwmaps w))).
      assert (Hm : m ∉ dom (kwmaps w)) by apply is_fresh.
      set (w' := {| schemas := schemas w;
                    queries := <[q0 := {| Keywords := Some m; Paging := Paging qv |}]> (queries w);
                    kwmaps := <[m := <["project_id" := VInt64 project]> ∅]>
                                (<[m := ∅]> (kwmaps w)) |}).
      exists q0, m, w'.
      assert (Hp : projectQuery project (Some q0) w = Some (q0, w')).
      { unfold projectQuery. rewrite Hq0, Ek. simpl. fold m.
        rewrite lookup_insert_eq. reflexivity. }
      assert (Hkey : keywords_of (Some q0) w = ∅).
      { unfold keywords_of. now rewrite Hq0, Ek. }
      destruct (Hfin q0 m w' (Paging qv) ∅ Hp eq_refl) as (F1 & F2 & F3 & F4 & F5 & F6 & F7).
      { simpl. apply lookup_insert_eq. }
      { simpl. apply lookup_insert_eq. }
      destruct (F4 Hkey) as [F4a F4b].
      split; [exact Hp|]. split; [exact F1|]. split; [exact F2|]. split; [exact F3|].
      split; [exact F4a|]. split; [discriminate|]. split.
      { intros q1 qv1 [= <-] Hq1. rewrite Hq0 in Hq1. injection Hq1 as <-.
        split; [reflexivity|]. split; [simpl; apply lookup_insert_eq|]. split.
        - intros m1 Hm1. rewrite Ek in Hm1. discriminate.
        - intros _. exact Hm. }
      split; [exact F4b|]. split; [exact F5|]. split; [exact F6|exact F7].
  - clear Hv.
    set (q := fresh (dom (queries w))).
    assert (Hq : q ∉ dom (queries w)) by apply is_fresh.
    set (m := fresh (dom (kwmaps w))).
    assert (Hm : m ∉ dom (kwmaps w)) by apply is_fresh.
    set (w' := {| schemas := schemas w;
                  queries := <[q := {| Keywords := Some m; Paging := paging_zero |}]>
                               (<[q := {| Keywords := None; Paging := paging_zero |}]> (queries w));
                  kwmaps := <[m := <["project_id" := VInt64 project]> ∅]>
                              (<[m := ∅]> (kwmaps w)) |}).
    exists q, m, w'.
    assert (Hp : projectQuery project None w = Some (q, w')).
    { unfold projectQuery. fold q. simpl. rewrite lookup_insert_eq. simpl. fold m.
      rewrite lookup_insert_eq. reflexivity. }
    destruct (Hfin q m w' paging_zero ∅ Hp eq_refl) as (F1 & F2 & F3 & F4 & F5 & F6 & F7).
    { simpl. apply lookup_insert_eq. }
    { simpl. apply lookup_insert_eq. }
    destruct (F4 eq_refl) as [F4a F4b].
    split; [exact Hp|]. split; [exact F1|]. split; [exact F2|]. split; [exact F3|].
    split; [exact F4a|]. split.
    { intros _. split; [exact Hq|]. split; [exact Hm|]. simpl. apply lookup_insert_eq. }
    split; [discriminate|].
    split; [exact F4b|]. split; [exact F5|]. split; [exact F6|exact F7].
Qed.

(** The keywords of a query depend on the queries and the keyword maps
    only. *)
Lemma keywords_of_ext query (w1 w2 : world) :
  queries w1 = queries w2 -> kwmaps w1 = kwmaps w2 ->
  keywords_of query w1 = keywords_of query w2.
Proof. unfold keywords_of. now intros -> ->. Qed.

(** C6.  For a nil query [ListPoliciesByProject] makes a new query, and for
    a nil keyword map a new map; the call goes on, into [ListPolicies],
    with a query whose keywords are those it came with and the project
    under [project_id].  A query of the caller is updated at its own
    address, and so is its keyword map if it has one.  After a call with a
    nil query or with a query without keywords, the keywords of the query
    are exactly the one entry, and a second call with the query and the
    same project leaves the query and its keywords as they are. *)
Theorem ListPoliciesByProject_query (project : Z) (query : ptr loc) (w : world) :
  valid_query query w ->
  exists q m w',
    projectQuery project query w = Some (q, w')
    /\ ListPoliciesByProject project query w = ListPolicies (Some q) w'
    /\ schemas w' = schemas w
    /\ (exists paging, queries w' !! q = Some {| Keywords := Some m; Paging := paging |})
    /\ kwmaps w' !! m = Some (<["project_id" := VInt64 project]> (keywords_of query w))
    /\ (query = None ->
           (q ∉ dom (queries w)) /\ (m ∉ dom (kwmaps w))
           /\ queries w' !! q = Some {| Keywords := Some m; Paging := paging_zero |})
    /\ (forall q0 qv, query = Some q0 -> queries w !! q0 = Some qv ->
           q = q0
           /\ queries w' !! q0 = Some {| Keywords := Some m; Paging := Paging qv |}
           /\ (forall m0, Keywords qv = Some m0 -> m = m0 /\ queries w' = queries w)
           /\ (Keywords qv = None -> (m ∉ dom (kwmaps w))))
    /\ queries (ListPoliciesByProject project query w).1 = queries w'
    /\ kwmaps (ListPoliciesByProject project query w).1 = kwmaps w'
    /\ (keywords_of query w = ∅ ->
           keywords_of (Some q) (ListPoliciesByProject project query w).1
           = {[ "project_id" := VInt64 project ]})
    /\ projectQuery project (Some q) (ListPoliciesByProject project query w).1
       = Some (q, (ListPoliciesByProject project query w).1).
Proof.
  intros Hv.
  destruct (projectQuery_spec project query w Hv)
    as (q & m & w' & Hp & HL & Hs & [paging Hq] & Hm & Hnil & Hown & Hone & _ & Hq1 & Hk1).
  exists q, m, w'.
  split; [exact Hp|]. split; [exact HL|]. split; [exact Hs|]. split; [eauto|].
  split; [exact Hm|]. split; [exact Hnil|]. split; [exact Hown|].
  split; [exact Hq1|]. split; [exact Hk1|]. split.
  - intros He. rewrite (keywords_of_ext (Some q) _ w' Hq1 Hk1). now apply Hone.
  - eapply projectQuery_again.
    + rewrite Hq1. exact Hq.
    + rewrite Hk1. exact Hm.
Qed.

End manager_claims.

(** ** The claims on the filters *)

Section filter_claims.
Context `{O : Opaque} `{U : !Unmarshal} `{G : !GoImpl}.

Lemma nonempty_length (s : string) : s <> EmptyString -> (String.length s =? 0)%nat = false.
Proof. destruct s; [congruence|reflexivity]. Qed.

(** [parseFilters] on a text that decodes to the filters [fs]. *)
Lemma parseFilters_decoded filterStr filters (fs : list Filter) :
  filterStr <> EmptyString ->
  unmarshal_filters filterStr = inr filters ->
  elems filters = Some <$> fs ->
  parseFilters filterStr
  = match parseFilters_loop (Some <$> fs) with
    | Ok l => Ok (match filters with Some _ => Some l | None => None end)
    | Err e => Err e
    | Panic => Panic
    end.
Proof.
  intros Hne Hd He. unfold parseFilters.
  now rewrite (nonempty_length _ Hne), Hd, He.
Qed.

Lemma parseFilters_good filterStr filters (fs : list Filter) :
  filterStr <> EmptyString ->
  unmarshal_filters filterStr = inr filters ->
  elems filters = Some <$> fs ->
  Forall (fun f => bad_severity f = false) fs ->
  exists fs', parseFilters filterStr = Ok (coerced_slice filters fs')
              /\ Forall2 (fun f f' => coerce f = inr f') fs fs'.
Proof.
  intros Hne Hd He Hgood.
  destruct (parseFilters_loop_ok fs Hgood) as (fs' & Hl & Hc).
  exists fs'. split; [|exact Hc].
  rewrite (parseFilters_decoded _ _ _ Hne Hd He), Hl. reflexivity.
Qed.

(** C1, amended.  For every text that decodes to a sequence of filters
    none of which is nil, [parseFilters] returns the sequence coerced
    filter by filter, unless a severity string is no numeral, where it
    returns the error of [ParseInt] on the first such string under the
    context [parse filters].  The coercion applies to the filters whose
    type is the vulnerability severity, where a string is replaced by the
    integer it is the base-10 numeral of and a float by its integer part
    if that fits the 64-bit int (by some int if not); any other value
    there, and every value of a filter of another type, is kept.  The
    string [7] and the float [7.9] both become the integer 7. *)
Theorem parseFilters_coercion (filterStr : string) (filters : slice (ptr Filter))
  (fs : list Filter) :
  filterStr <> EmptyString ->
  unmarshal_filters filterStr = inr filters ->
  elems filters = Some <$> fs ->
  (Forall (fun f => bad_severity f = false) fs ->
     exists fs', parseFilters filterStr = Ok (coerced_slice filters fs')
                 /\ Forall2 severity_coerced fs fs')
  /\ (Exists (fun f => bad_severity f = true) fs ->
       exists pre f post str w err,
         fs = (pre ++ f :: post)%list
         /\ Forall (fun f => bad_severity f = false) pre
         /\ is_severity f = true /\ Value f = VString str
         /\ decimal.int32 str = None
         /\ strconv.ParseInt str 10 32 = (w, Some err)
         /\ parseFilters filterStr = Err (Wrapf (OfStrconv err) "parse filters"))
  /\ parseFilters_loop
       [Some (mkFilter FilterTypeVulnerability (VString "7"));
        Some (mkFilter FilterTypeVulnerability (VFloat64 (float64_of_decimal false 79 (-1))))]
     = Ok [Some (mkFilter FilterTypeVulnerability (VInt 7));
           Some (mkFilter FilterTypeVulnerability (VInt 7))].
Proof.
  intros Hne Hd He. split; [|split].
  - intros Hgood.
    destruct (parseFilters_good _ _ _ Hne Hd He Hgood) as (fs' & Hp & Hc).
    exists fs'. split; [exact Hp|].
    eapply Forall2_impl; [exact Hc|]. intros f f'. apply coerce_coerced.
  - intros Hex.
    destruct (first_bad_severity fs Hex) as (pre & f & post & -> & Hpre & Hbad).
    destruct (coerce_bad f Hbad) as [err Hc].
    destruct (coerce_error f err Hc) as (_ & Hs & str & w & Hv & Hi & Hp).
    exists pre, f, post, str, w, err.
    repeat (split; [assumption || reflexivity|]).
    rewrite (parseFilters_decoded _ _ _ Hne Hd He).
    now rewrite (parseFilters_loop_error pre post f err Hpre Hc).
  - rewrite !parseFilters_loop_cons. unfold coerce. simpl.
    rewrite (int_of_float64_trunc (float64_of_decimal false 79 (-1)) 7);
      [reflexivity|reflexivity|unfold int_min, int_max; lia].
Qed.

(** What holds of the severity strings where no element of the decoded
    sequence is nil (a nil element is the defect shown under C7, among the
    examples).  For every text that decodes to a sequence of filters: if a
    severity filter of the sequence has a string that is no base-10
    numeral of a 32-bit signed integer, [parseFilters] fails with
    [Wrapf err "parse filters"], of the kind [Malformed], [err] being the
    error of [ParseInt] on the first such string; if there is none, every
    severity filter with a string has it replaced by the integer
    [ParseInt] returns for it. *)
Theorem parseFilters_severity_string (filterStr : string)
  (filters : slice (ptr Filter)) (fs : list Filter) :
  filterStr <> EmptyString ->
  unmarshal_filters filterStr = inr filters ->
  elems filters = Some <$> fs ->
  (Exists (fun f => bad_severity f = true) fs ->
     exists pre f post str w err,
       fs = (pre ++ f :: post)%list
       /\ Forall (fun f => bad_severity f = false) pre
       /\ is_severity f = true /\ Value f = VString str
       /\ decimal.int32 str = None
       /\ strconv.ParseInt str 10 32 = (w, Some err)
       /\ parseFilters filterStr = Err (Wrapf (OfStrconv err) "parse filters")
       /\ kind_of (Wrapf (OfStrconv err) "parse filters") = Malformed)
  /\ (Forall (fun f => bad_severity f = false) fs ->
       exists fs',
         parseFilters filterStr = Ok (coerced_slice filters fs')
         /\ Forall2 (fun f f' =>
              forall str, is_severity f = true -> Value f = VString str ->
                exists n, decimal.int32 str = Some n
                          /\ strconv.ParseInt str 10 32 = (n, None)
                          /\ f' = mkFilter (Type_ f) (VInt n)) fs fs').
Proof.
  intros Hne Hd He. split.
  - intros Hex.
    destruct (first_bad_severity fs Hex) as (pre & f & post & -> & Hpre & Hbad).
    destruct (coerce_bad f Hbad) as [err Hc].
    destruct (coerce_error f err Hc) as (_ & Hs & str & w & Hv & Hi & Hp).
    exists pre, f, post, str, w, err.
    repeat (split; [assumption || reflexivity|]).
    split; [|reflexivity].
    rewrite (parseFilters_decoded _ _ _ Hne Hd He).
    now rewrite (parseFilters_loop_error pre post f err Hpre Hc).
  - intros Hgood.
    destruct (parseFilters_good _ _ _ Hne Hd He Hgood) as (fs' & Hp & Hc).
    exists fs'. split; [exact Hp|].
    eapply Forall2_impl; [exact Hc|]. intros f f' Hf str Hs Hv.
    unfold coerce in Hf. rewrite Hs, Hv in Hf.
    destruct (decimal.int32 str) as [n|] eqn:Ei.
    + exists n. rewrite (ParseInt_int32 _ _ Ei) in Hf |- *. injection Hf as <-.
      split; [reflexivity|]. split; [reflexivity|].
      now rewrite (int_of_int64_int32 _ _ Ei).
    + destruct (ParseInt_not_int32 _ Ei) as (w & r & Hp' & _).
      rewrite Hp' in Hf. discriminate.
Qed.

(** C8, amended.  For every non-empty text that decodes to a sequence of
    filters whose severity strings are numerals, [parseFilters] returns a
    sequence of the same length in the same order; position by position
    the type is the decoded one, and so is the value, except on a severity
    filter whose decoded value is a string or a float, where it is an
    int.  A severity filter with any other decoded value keeps it.  What
    re-encodes a filter therefore sees the decoded fields, but for these
    values. *)
Theorem parseFilters_stable (filterStr : string) (filters : slice (ptr Filter))
  (fs : list Filter) :
  filterStr <> EmptyString ->
  unmarshal_filters filterStr = inr filters ->
  elems filters = Some <$> fs ->
  Forall (fun f => bad_severity f = false) fs ->
  exists out,
    parseFilters filterStr = Ok out
    /\ length (elems out) = length fs
    /\ (out = None <-> filters = None)
    /\ forall (i : nat) f, fs !! i = Some f ->
         exists f', elems out !! i = Some (Some f')
           /\ Type_ f' = Type_ f
           /\ (is_severity f && string_or_float (Value f) = false -> Value f' = Value f)
           /\ (is_severity f && string_or_float (Value f) = true ->
                exists n, Value f' = VInt n /\ int_min <= n <= int_max).
Proof.
  intros Hne Hd He Hgood.
  destruct (parseFilters_good _ _ _ Hne Hd He Hgood) as (fs' & Hp & Hc).
  exists (coerced_slice filters fs'). split; [exact Hp|].
  assert (Hel : elems (coerced_slice filters fs') = Some <$> fs').
  { destruct filters as [l|]; [reflexivity|]. simpl in He |- *.
    destruct fs; [|discriminate]. inversion Hc. reflexivity. }
  rewrite Hel, length_fmap. split; [symmetry; eapply Forall2_length; eauto|].
  split; [destruct filters; simpl; split; congruence|].
  intros i f Hi.
  destruct (Forall2_lookup_l _ _ _ _ _ Hc Hi) as (f' & Hi' & Hf).
  exists f'. rewrite list_lookup_fmap, Hi'. split; [reflexivity|].
  apply coerce_coerced in Hf. destruct Hf as [Ht Hv]. split; [exact Ht|].
  destruct (is_severity f); simpl.
  - destruct (Value f) as [| | x | str | | | |]; simpl; split;
      try (intros _; exact Hv); try discriminate.
    + intros _. destruct Hv as (n & Hn & Hr & _). eauto.
    + intros _. destruct Hv as (n & Hi32 & Hn). exists n. split; [exact Hn|].
      pose proof (int_of_int64_int32 _ _ Hi32) as Hs.
      unfold int_of_int64 in Hs. rewrite <- Hs. apply i64_range.
  - split; [intros _; exact Hv|discriminate].
Qed.

(** C10, amended.  On a severity filter, a negative float whose integer
    part [n] fits the 64-bit int becomes [n], which has the magnitude of
    the float rounded down, so that the float is rounded toward zero; and
    the decimal numeral of every 32-bit signed integer [z], the negative
    ones included, becomes the int [z]. *)
Theorem severity_negative_values (m : positive) (e n z : Z) :
  float64_trunc (S754_finite true m e) = Some n ->
  int_min <= n ->
  - 2 ^ 31 <= z < 2 ^ 31 ->
  (parseFilters_loop [Some (mkFilter FilterTypeVulnerability (VFloat64 (S754_finite true m e)))]
   = Ok [Some (mkFilter FilterTypeVulnerability (VInt n))]
   /\ n <= 0
   /\ (0 <= e -> - n = Z.pos m * 2 ^ e)
   /\ (e < 0 -> - n * 2 ^ (- e) <= Z.pos m < (- n + 1) * 2 ^ (- e)))
  /\ (strconv.ParseInt (decimal.of_Z z) 10 32 = (z, None)
      /\ parseFilters_loop [Some (mkFilter FilterTypeVulnerability (VString (decimal.of_Z z)))]
         = Ok [Some (mkFilter FilterTypeVulnerability (VInt z))]
      /\ int_min <= z <= int_max).
Proof.
  intros Ht Hn Hz.
  destruct (float64_trunc_finite _ _ _ _ Ht) as (Hsign & Hpos & Hneg).
  assert (Hn0 : n <= 0) by lia.
  assert (Habs : Z.abs n = - n) by lia.
  rewrite Habs in Hpos, Hneg.
  pose proof (int32_of_Z z Hz) as Hi.
  split; [split; [|split; [exact Hn0|split; [exact Hpos|exact Hneg]]]|split; [|split]].
  - rewrite parseFilters_loop_cons. unfold coerce. simpl Value. cbv iota.
    change (is_severity _) with true. cbv iota.
    rewrite (int_of_float64_trunc _ n Ht); [reflexivity|].
    unfold int_min, int_max in *. lia.
  - now apply ParseInt_int32.
  - rewrite parseFilters_loop_cons. unfold coerce. simpl Value.
    change (is_severity _) with true. cbv iota.
    rewrite (ParseInt_int32 _ _ Hi), (int_of_int64_int32 _ _ Hi). reflexivity.
  - unfold int_min, int_max. lia.
Qed.

End filter_claims.

(** ** The claim on malformed texts *)

Section malformed_claims.
Context `{O : Opaque} `{U : !Unmarshal} `{G : !GoImpl} `{D : !dao.DAO}.

Lemma parseFilters_loop_err_kind l e :
  parseFilters_loop l = Err e -> kind_of e = Malformed.
Proof.
  revert e. induction l as [|[f|] rest IH]; intros e; [discriminate| |discriminate].
  rewrite parseFilters_loop_cons. destruct (coerce f) as [err|f'].
  - now intros [= <-].
  - destruct (parseFilters_loop rest) as [r|e'|]; try discriminate.
    intros [= <-]. now apply IH.
Qed.

(** Every error of [parseFilters] is of the kind [Malformed]. *)
Lemma parseFilters_err_kind str e : parseFilters str = Err e -> kind_of e = Malformed.
Proof.
  unfold parseFilters. destruct (String.length str =? 0)%nat; [discriminate|].
  destruct (unmarshal_filters str) as [err|filters]; [now intros [= <-]|].
  destruct (parseFilters_loop (elems filters)) as [l|e'|] eqn:El; try discriminate.
  intros [= <-]. eapply parseFilters_loop_err_kind; eauto.
Qed.

Lemma parseFilters_undecodable str e :
  str <> EmptyString -> unmarshal_filters str = inl e -> parseFilters str = Err (OfJSON e).
Proof.
  intros Hne He. unfold parseFilters. now rewrite (nonempty_length _ Hne), He.
Qed.

Lemma parseTrigger_undecodable str e :
  str <> EmptyString -> unmarshal_trigger str = inl e -> parseTrigger str = Err (OfJSON e).
Proof.
  intros Hne He. unfold parseTrigger. now rewrite (nonempty_length _ Hne), He.
Qed.

Lemma undecodable_verdict s :
  undecodable s -> forall s', normal_form s <> Ok s'.
Proof.
  intros [[Hne [e He]]|[Hne [e He]]] s'; unfold normal_form.
  - now rewrite (parseFilters_undecodable _ _ Hne He).
  - rewrite (parseTrigger_undecodable _ _ Hne He).
    destruct (parseFilters (FiltersStr s)); discriminate.
Qed.

(** C2, amended.  For a schema one of whose raw texts is not empty and
    fails to decode, the normalization pass never succeeds.  If it is the
    filters text, the pass returns the decode error as it is, of the kind
    [Malformed], and writes nothing.  If the filters are normalized and the
    trigger text fails to decode, the pass returns the decode error of the
    trigger as it is.  If the severity coercion of the decoded filters
    fails, the pass returns the error of the coercion, also of the kind
    [Malformed], whatever the trigger text.  [Get] and [GetByName] return
    what the pass returns on the schema the store answered with, and
    [ListPolicies] returns no list for a page with such a schema. *)
Theorem parsePolicy_malformed (h : gmap loc Schema) (l : loc) (s : Schema) :
  h !! l = Some s ->
  undecodable s ->
  (forall h' l', parsePolicy (Some l) h <> (h', Ok l'))
  /\ (forall e, FiltersStr s <> EmptyString ->
        unmarshal_filters (FiltersStr s) = inl e ->
        parsePolicy (Some l) h = (h, Err (OfJSON e)) /\ kind_of (OfJSON e) = Malformed)
  /\ (forall filters e, parseFilters (FiltersStr s) = Ok filters ->
        TriggerStr s <> EmptyString ->
        unmarshal_trigger (TriggerStr s) = inl e ->
        parsePolicy (Some l) h = (<[l := set_Filters s filters]> h, Err (OfJSON e))
        /\ kind_of (OfJSON e) = Malformed)
  /\ (forall e, parseFilters (FiltersStr s) = Err e ->
        parsePolicy (Some l) h = (h, Err e) /\ kind_of e = Malformed)
  /\ (forall id h0, dao.Get id h0 = (h, Ok (Some l)) ->
        Get id h0 = parsePolicy (Some l) h)
  /\ (forall projectID name h0, dao.GetByName projectID name h0 = (h, Ok (Some l)) ->
        GetByName projectID name h0 = parsePolicy (Some l) h)
  /\ (forall query w page, dao.List query w = (h, Ok page) ->
        Some l ∈ elems page ->
        forall out, (ListPolicies query w).2 <> Ok out).
Proof.
  intros Hl Hu.
  pose proof (undecodable_verdict s Hu) as Hnf.
  split; [|split; [|split; [|split; [|split; [|split]]]]].
  - intros h' l' Hp.
    pose proof (parsePolicy_normal_form l h s Hl) as Hs.
    destruct (normal_form s) as [s'| |] eqn:En.
    + now apply (Hnf s').
    + destruct Hs as [Hs|(fs & _ & Hs)]; congruence.
    + destruct Hs as [Hs|(fs & _ & Hs)]; congruence.
  - intros e Hne He. split; [|reflexivity].
    unfold parsePolicy. now rewrite Hl, (parseFilters_undecodable _ _ Hne He).
  - intros filters e Hf Hne He. split; [|reflexivity].
    unfold parsePolicy. rewrite Hl, Hf.
    change (TriggerStr (set_Filters s filters)) with (TriggerStr s).
    now rewrite (parseTrigger_undecodable _ _ Hne He).
  - intros e Hf. split; [|eapply parseFilters_err_kind; eauto].
    unfold parsePolicy. now rewrite Hl, Hf.
  - intros id h0 Hd. unfold Get. now rewrite Hd.
  - intros projectID name h0 Hd. unfold GetByName. now rewrite Hd.
  - intros query w page Hd Hin.
    apply (ListPolicies_no_list query w h page Hd).
    exists (Some l). split; [exact Hin|].
    intros (h' & l' & Hp).
    pose proof (parsePolicy_normal_form l h s Hl) as Hs.
    destruct (normal_form s) as [s'| |] eqn:En.
    + now apply (Hnf s').
    + destruct Hs as [Hs|(fs & _ & Hs)]; congruence.
    + destruct Hs as [Hs|(fs & _ & Hs)]; congruence.
Qed.

End malformed_claims.

(** ** Examples *)

Section examples.
Import reference.
#[local] Existing Instances opaque unmarshal amd64.

Lemma parseFilters_coercion_witness :
  filters_7 <> EmptyString
  /\ unmarshal_filters filters_7 = inr (Some (Some <$> decoded_7))
  /\ Forall (fun f => bad_severity f = false) decoded_7
  /\ (exists fs', parseFilters filters_7 = Ok (Some (Some <$> fs'))
                  /\ Forall2 severity_coerced decoded_7 fs').
Proof.
  assert (Hne : filters_7 <> EmptyString) by discriminate.
  assert (Hd : unmarshal_filters filters_7 = inr (Some (Some <$> decoded_7)))
    by (vm_compute; reflexivity).
  assert (Hg : Forall (fun f => bad_severity f = false) decoded_7)
    by (repeat constructor).
  split; [exact Hne|]. split; [exact Hd|]. split; [exact Hg|].
  exact (proj1 (parseFilters_coercion filters_7 (Some (Some <$> decoded_7)) decoded_7
                  Hne Hd eq_refl) Hg).
Defined.

(** The claim C1 as it stands fails on a float beyond the range of int:
    the text decodes to the float64 nearest to 1e300, whose integer part is
    [6724873095247260 * 2^944], and the severity becomes [-2^63] on amd64
    (and no int is that integer part, see [int_of_float64_beyond]). *)
Lemma severity_float_beyond_int :
  unmarshal_filters filters_1e300
  = inr (Some [Some (mkFilter "vulnerability" (VFloat64 f1e300))])
  /\ float64_trunc f1e300 = Some (6724873095247260 * 2 ^ 944)
  /\ parseFilters filters_1e300
     = Ok (Some [Some (mkFilter "vulnerability" (VInt (- 2 ^ 63)))])
  /\ int_max < 6724873095247260 * 2 ^ 944
  /\ VInt (- 2 ^ 63) <> VInt (6724873095247260 * 2 ^ 944).
Proof.
  split; [vm_compute; reflexivity|]. split; [vm_compute; reflexivity|].
  split; [vm_compute; reflexivity|]. split; [vm_compute; reflexivity|].
  intros [= He]; vm_compute in He; discriminate.
Qed.

Lemma parsePolicy_malformed_witness :
  (<[3%positive := broken]> ∅ : gmap loc Schema) !! 3%positive = Some broken
  /\ undecodable broken
  /\ (forall h' l', parsePolicy (Some 3%positive) (<[3%positive := broken]> ∅) <> (h', Ok l'))
  /\ (exists filters,
        parsePolicy (Some 3%positive) (<[3%positive := broken]> ∅)
        = (<[3%positive := set_Filters broken filters]> (<[3%positive := broken]> ∅),
           Err (OfJSON json.SyntaxError))
        /\ kind_of (OfJSON json.SyntaxError) = Malformed).
Proof.
  assert (Hl : (<[3%positive := broken]> ∅ : gmap loc Schema) !! 3%positive = Some broken)
    by reflexivity.
  assert (Hu : undecodable broken).
  { right. split; [discriminate|]. exists json.SyntaxError. vm_compute. reflexivity. }
  destruct (parsePolicy_malformed (D := store table) _ _ _ Hl Hu)
    as (Hnever & _ & Htrigger & _).
  split; [exact Hl|]. split; [exact Hu|]. split; [exact Hnever|].
  eexists. apply Htrigger.
  - vm_compute. reflexivity.
  - discriminate.
  - vm_compute. reflexivity.
Defined.

(** The claim C2 as it stands fails where the severity coercion fails
    before the trigger is decoded: the trigger text of [masked] is not
    empty and fails to decode, and the pass returns the error of
    [ParseInt] on the severity [high], wrapped, not the decode error. *)
Lemma malformed_trigger_masked :
  TriggerStr masked <> EmptyString
  /\ unmarshal_trigger (TriggerStr masked) = inl json.SyntaxError
  /\ parsePolicy (Some 4%positive) (<[4%positive := masked]> ∅)
     = (<[4%positive := masked]> ∅,
        Err (Wrapf (OfStrconv (strconv.mkNumError "ParseInt" "high" strconv.ErrSyntax))
               "parse filters"))
  /\ Wrapf (OfStrconv (strconv.mkNumError "ParseInt" "high" strconv.ErrSyntax))
        "parse filters" <> OfJSON json.SyntaxError.
Proof.
  split; [discriminate|]. split; [vm_compute; reflexivity|].
  split; [vm_compute; reflexivity|]. discriminate.
Qed.

Lemma ListPolicies_atomic_witness :
  dao.List (DAO := store table) None empty_world
  = (listed, Ok (Some [Some 1%positive; Some 2%positive; Some 3%positive]))
  /\ (exists p e,
        p ∈ [Some 1%positive; Some 2%positive; Some 3%positive]
        /\ fails_with p listed e
        /\ (ListPolicies (D := store table) None empty_world).2 = Err e)
  /\ (forall out, (ListPolicies (D := store table) None empty_world).2 <> Ok out).
Proof.
  assert (Hd : dao.List (DAO := store table) None empty_world
               = (listed, Ok (Some [Some 1%positive; Some 2%positive; Some 3%positive])))
    by (vm_compute; reflexivity).
  assert (Hf : fails_with (Some 3%positive) listed (OfJSON json.SyntaxError)).
  { eexists. vm_compute. reflexivity. }
  assert (Hin : Some 3%positive ∈ [Some 1%positive; Some 2%positive; Some 3%positive])
    by (rewrite !elem_of_cons; auto).
  destruct (ListPolicies_atomic (D := store table) None empty_world listed _ Hd)
    as (_ & Hnone & Herr & _).
  split; [exact Hd|]. split.
  - apply Herr; [eauto|].
    intros p Hp [h' Hpanic].
    repeat (apply elem_of_cons in Hp as [->|Hp]);
      [vm_compute in Hpanic; discriminate ..|].
    now apply elem_of_nil in Hp.
  - apply Hnone. exists (Some 3%positive). split; [exact Hin|].
    intros (h' & l' & Hn). vm_compute in Hn. discriminate.
Defined.

Lemma parsePolicy_empty_raw_witness :
  (<[2%positive := blank]> ∅ : gmap loc Schema) !! 2%positive = Some blank
  /\ FiltersStr blank = EmptyString
  /\ TriggerStr blank = EmptyString
  /\ parseFilters (FiltersStr blank) = Ok None
  /\ parseTrigger (TriggerStr blank) = Ok None
  /\ exists s',
       parsePolicy (Some 2%positive) (<[2%positive := blank]> ∅)
       = (<[2%positive := s']> (<[2%positive := blank]> ∅), Ok 2%positive)
       /\ Filters s' = None /\ Trigger s' = None /\ persisted s' = persisted blank.
Proof.
  split; [reflexivity|]. split; [reflexivity|]. split; [reflexivity|].
  apply (parsePolicy_empty_raw (<[2%positive := blank]> ∅) 2%positive blank); reflexivity.
Defined.

Lemma ListPoliciesByProject_query_witness :
  valid_query (Some 5%positive) asking
  /\ exists q m w',
       projectQuery 7 (Some 5%positive) asking = Some (q, w')
       /\ q = 5%positive
       /\ queries w' !! q = Some (@mkQuery opaque (Some m) (2, 10))
       /\ keywords_of (Some q) (ListPoliciesByProject (D := store table) 7 (Some 5%positive) asking).1
          = {[ "project_id" := VInt64 7 ]}
       /\ projectQuery 7 (Some q) (ListPoliciesByProject (D := store table) 7 (Some 5%positive) asking).1
          = Some (q, (ListPoliciesByProject (D := store table) 7 (Some 5%positive) asking).1).
Proof.
  assert (Hv : valid_query (Some 5%positive) asking).
  { exists (@mkQuery opaque None (2, 10)). split; [reflexivity|exact I]. }
  split; [exact Hv|].
  destruct (ListPoliciesByProject_query (D := store table) 7 (Some 5%positive) asking Hv)
    as (q & m & w' & Hp & _ & _ & _ & _ & _ & Hown & _ & _ & Hone & Htwice).
  destruct (Hown 5%positive (@mkQuery opaque None (2, 10)) eq_refl eq_refl)
    as (Hq & Hquery & _).
  exists q, m, w'. split; [exact Hp|]. split; [exact Hq|].
  split; [rewrite Hq; exact Hquery|]. split; [apply Hone; reflexivity|exact Htwice].
Defined.

Lemma parseFilters_severity_string_witness :
  filters_high <> EmptyString
  /\ unmarshal_filters filters_high = inr (Some (Some <$> decoded_high))
  /\ Exists (fun f => bad_severity f = true) decoded_high
  /\ exists pre f post str w err,
       decoded_high = (pre ++ f :: post)%list
       /\ Forall (fun f => bad_severity f = false) pre
       /\ is_severity f = true /\ Value f = VString str
       /\ decimal.int32 str = None
       /\ strconv.ParseInt str 10 32 = (w, Some err)
       /\ parseFilters filters_high = Err (Wrapf (OfStrconv err) "parse filters")
       /\ kind_of (Wrapf (OfStrconv err) "parse filters") = Malformed.
Proof.
  assert (Hne : filters_high <> EmptyString) by discriminate.
  assert (Hd : unmarshal_filters filters_high = inr (Some (Some <$> decoded_high)))
    by (vm_compute; reflexivity).
  assert (Hb : Exists (fun f => bad_severity f = true) decoded_high)
    by (apply Exists_cons_tl, Exists_cons_hd; reflexivity).
  split; [exact Hne|]. split; [exact Hd|]. split; [exact Hb|].
  exact (proj1 (parseFilters_severity_string filters_high _ decoded_high Hne Hd eq_refl) Hb).
Defined.

Lemma parseFilters_stable_witness :
  filters_7 <> EmptyString
  /\ unmarshal_filters filters_7 = inr (Some (Some <$> decoded_7))
  /\ Forall (fun f => bad_severity f = false) decoded_7
  /\ exists out,
       parseFilters filters_7 = Ok out
       /\ length (elems out) = length decoded_7
       /\ (out = None <-> Some (Some <$> decoded_7) = None)
       /\ forall (i : nat) f, decoded_7 !! i = Some f ->
            exists f', elems out !! i = Some (Some f')
              /\ Type_ f' = Type_ f
              /\ (is_severity f && string_or_float (Value f) = false -> Value f' = Value f)
              /\ (is_severity f && string_or_float (Value f) = true ->
                   exists n, Value f' = VInt n /\ int_min <= n <= int_max).
Proof.
  assert (Hne : filters_7 <> EmptyString) by discriminate.
  assert (Hd : unmarshal_filters filters_7 = inr (Some (Some <$> decoded_7)))
    by (vm_compute; reflexivity).
  assert (Hg : Forall (fun f => bad_severity f = false) decoded_7)
    by (repeat constructor).
  split; [exact Hne|]. split; [exact Hd|]. split; [exact Hg|].
  exact (parseFilters_stable filters_7 _ decoded_7 Hne Hd eq_refl Hg).
Defined.

(** The claim C8 as it stands fails on a severity filter whose value is
    neither a string nor a number: the boolean is still a boolean after
    the normalization. *)
Lemma severity_bool_kept :
  unmarshal_filters filters_true
  = inr (Some [Some (mkFilter "vulnerability" (VBool true))])
  /\ parseFilters filters_true
     = Ok (Some [Some (mkFilter "vulnerability" (VBool true))])
  /\ is_severity (mkFilter "vulnerability" (VBool true)) = true
  /\ forall n, VBool true <> VInt n.
Proof.
  split; [vm_compute; reflexivity|]. split; [vm_compute; reflexivity|].
  split; [reflexivity|]. discriminate.
Qed.

Lemma parsePolicy_frame_witness :
  parsePolicy (Some 1%positive) (<[1%positive := nightly]> ∅)
  = ((parsePolicy (Some 1%positive) (<[1%positive := nightly]> ∅)).1, Ok 1%positive)
  /\ exists s filters trigger,
       (<[1%positive := nightly]> ∅ : gmap loc Schema) !! 1%positive = Some s
       /\ parseFilters (FiltersStr s) = Ok filters
       /\ parseTrigger (TriggerStr s) = Ok trigger
       /\ (parsePolicy (Some 1%positive) (<[1%positive := nightly]> ∅)).1
          = <[1%positive := {| ID := ID s; Name := Name s; ProjectID := ProjectID s;
                               FiltersStr := FiltersStr s; Filters := filters;
                               TriggerStr := TriggerStr s; Trigger := trigger;
                               Rest := Rest s |}]> (<[1%positive := nightly]> ∅)
       /\ (forall l', l' <> 1%positive ->
             (parsePolicy (Some 1%positive) (<[1%positive := nightly]> ∅)).1 !! l'
             = (<[1%positive := nightly]> ∅ : gmap loc Schema) !! l')
       /\ dom (parsePolicy (Some 1%positive) (<[1%positive := nightly]> ∅)).1
          = dom (<[1%positive := nightly]> ∅ : gmap loc Schema).
Proof.
  assert (Hp : parsePolicy (Some 1%positive) (<[1%positive := nightly]> ∅)
               = ((parsePolicy (Some 1%positive) (<[1%positive := nightly]> ∅)).1,
                  Ok 1%positive))
    by (vm_compute; reflexivity).
  split; [exact Hp|].
  exact (proj2 (parsePolicy_frame _ _ _ _ Hp)).
Defined.

Lemma severity_negative_values_witness :
  float64_trunc (S754_finite true 8894609264056730 (-50)) = Some (-7)
  /\ int_min <= -7
  /\ - 2 ^ 31 <= -5 < 2 ^ 31
  /\ S754_finite true 8894609264056730 (-50) = float64_of_decimal true 79 (-1)
  /\ parseFilters_loop
       [Some (mkFilter FilterTypeVulnerability
                (VFloat64 (S754_finite true 8894609264056730 (-50))))]
     = Ok [Some (mkFilter FilterTypeVulnerability (VInt (-7)))]
  /\ strconv.ParseInt (decimal.of_Z (-5)) 10 32 = (-5, None)
  /\ parseFilters_loop
       [Some (mkFilter FilterTypeVulnerability (VString (decimal.of_Z (-5))))]
     = Ok [Some (mkFilter FilterTypeVulnerability (VInt (-5)))].
Proof.
  assert (Ht : float64_trunc (S754_finite true 8894609264056730 (-50)) = Some (-7))
    by (vm_compute; reflexivity).
  assert (Hn : int_min <= -7) by (unfold int_min; lia).
  assert (Hz : - 2 ^ 31 <= -5 < 2 ^ 31) by lia.
  destruct (severity_negative_values 8894609264056730 (-50) (-7) (-5) Ht Hn Hz)
    as ((Hf & _) & (Hparse & Hs & _)).
  split; [exact Ht|]. split; [exact Hn|]. split; [exact Hz|].
  split; [vm_compute; reflexivity|]. split; [exact Hf|]. split; [exact Hparse|exact Hs].
Defined.

(** The claim C10 as it stands fails on a negative float beyond the range
    of int: the text decodes to the float64 nearest to -1e300, whose
    integer part is [- (6724873095247260 * 2^944)], and the severity
    becomes [-2^63] on amd64 (and no int is that integer part, see
    [int_of_float64_beyond]). *)
Lemma negative_float_beyond_int :
  unmarshal_filters filters_minus_1e300
  = inr (Some [Some (mkFilter "vulnerability" (VFloat64 (float64_of_decimal true 1 300)))])
  /\ float64_trunc (float64_of_decimal true 1 300) = Some (- (6724873095247260 * 2 ^ 944))
  /\ parseFilters filters_minus_1e300
     = Ok (Some [Some (mkFilter "vulnerability" (VInt (- 2 ^ 63)))])
  /\ - (6724873095247260 * 2 ^ 944) < int_min
  /\ VInt (- 2 ^ 63) <> VInt (- (6724873095247260 * 2 ^ 944)).
Proof.
  split; [vm_compute; reflexivity|]. split; [vm_compute; reflexivity|].
  split; [vm_compute; reflexivity|]. split; [vm_compute; reflexivity|].
  intros [= He]; vm_compute in He; discriminate.
Qed.

(** The two end-to-end scenarios: [Get] returns the schema with the
    severity 5 as an int, whether it was stored as a string or as a
    number; and [Get] of an id the store does not have is [NotFound]. *)
Lemma Get_severity_five :
  match Get (D := store [five_string; five_float]) 5 ∅ with
  | (h, Ok l) => Filters <$> h !! l
  | _ => None
  end = Some (Some [Some (mkFilter "vulnerability" (VInt 5))])
  /\ match GetByName (D := store [five_string; five_float]) 2 "five" ∅ with
     | (h, Ok l) => Filters <$> h !! l
     | _ => None
     end = Some (Some [Some (mkFilter "vulnerability" (VInt 5))])
  /\ (exists e, (Get (D := store table) 9 ∅).2 = Err e /\ kind_of e = NotFound).
Proof.
  split; [vm_compute; reflexivity|]. split; [vm_compute; reflexivity|].
  eexists. split; [vm_compute; reflexivity|reflexivity].
Qed.

(** C4.  A defect of the code.  The store lists two schemas: the filters
    text of the first is [[null]], the trigger text of the second is
    truncated.  The pass fails on the second with the decode error, so
    normalization fails for an element of the page; yet [ListPolicies]
    returns no error: the loop of [parseFilters] reads the type of the
    first filter through a nil pointer and the call panics.  [parsePolicy]
    guards a nil schema, [ListPoliciesByProject] a nil query and a nil
    map; the loop does not guard a nil filter. *)
Lemma ListPolicies_panics_before_error :
  dao.List (DAO := store [samples.nulled; broken]) None empty_world
  = (<[2%positive := broken]> (<[1%positive := samples.nulled]> ∅),
     Ok (Some [Some 1%positive; Some 2%positive]))
  /\ unmarshal_filters (FiltersStr samples.nulled) = inr (Some [None])
  /\ parsePolicy (Some 2%positive)
       (<[2%positive := broken]> (<[1%positive := samples.nulled]> ∅))
     = (<[2%positive := set_Filters broken
                          (Some [Some (mkFilter "vulnerability" (VInt 7));
                                 Some (mkFilter "vulnerability" (VInt 7));
                                 Some (mkFilter "tag" (VString "7"))])]>
          (<[2%positive := broken]> (<[1%positive := samples.nulled]> ∅)),
        Err (OfJSON json.SyntaxError))
  /\ ListPolicies (D := store [samples.nulled; broken]) None empty_world
     = (set_schemas empty_world
          (<[2%positive := broken]> (<[1%positive := samples.nulled]> ∅)),
        Panic)
  /\ (forall e, (ListPolicies (D := store [samples.nulled; broken]) None empty_world).2
                <> Err e).
Proof.
  split; [vm_compute; reflexivity|]. split; [vm_compute; reflexivity|].
  split; [vm_compute; reflexivity|]. split; [vm_compute; reflexivity|].
  intros e He. vm_compute in He. discriminate.
Qed.

(** C7.  A defect of the code.  The filters text decodes to a nil pointer
    followed by a severity filter whose string, [high], [ParseInt] rejects
    with a syntax error.  [parseFilters] does not fail with that error
    under the context [parse filters]: the loop reads the type of the
    first filter through the nil pointer and panics before it reaches the
    string.  It is the defect of C4, in the same loop. *)
Lemma severity_string_behind_null :
  unmarshal_filters (text "[null,{'type':'vulnerability','value':'high'}]")
  = inr (Some [None; Some (mkFilter "vulnerability" (VString "high"))])
  /\ is_severity (mkFilter "vulnerability" (VString "high")) = true
  /\ strconv.ParseInt "high" 10 32 = (0, Some (strconv.syntaxError "ParseInt" "high"))
  /\ parseFilters (text "[null,{'type':'vulnerability','value':'high'}]") = Panic
  /\ (forall e, parseFilters (text "[null,{'type':'vulnerability','value':'high'}]")
                <> Err e).
Proof.
  split; [vm_compute; reflexivity|]. split; [reflexivity|].
  split; [reflexivity|]. split; [vm_compute; reflexivity|].
  intros e He. vm_compute in He. discriminate.
Qed.

(** A [null] among the filters decodes to a nil pointer, at which the loop
    of [parseFilters] panics. *)
Lemma parseFilters_null_element :
  unmarshal_filters (text "[null]") = inr (Some [None])
  /\ parseFilters (text "[null]") = Panic.
Proof. split; vm_compute; reflexivity. Qed.

(** The reference decoder on texts nested thirty deep. *)
Lemma parse_nested :
  json.parse "[[[[[[[[[[[[[[[[[[[[[[[[[[[[[[1]]]]]]]]]]]]]]]]]]]]]]]]]]]]]]"
  <> inl json.SyntaxError
  /\ json.parse (text "{'a':{'a':{'a':{'a':{'a':{'a':{'a':{'a':{'a':{'a':[{'a':[]}]}}}}}}}}}}")
     <> inl json.SyntaxError.
Proof. split; vm_compute; discriminate. Qed.

End examples.


(** * Further properties of the manager

    What the code shows besides: the errors and the panic of the
    normalization pass, what the pass and the reads write and leave alone,
    and how calls compose. *)

(** ** The severity strings [strconv.ParseInt] reads and rejects *)

Section severity_strings.
Import strconv numeral.
Context `{G : !GoImpl}.

Lemma leading_digits_ge s : forall acc v junk,
  0 <= acc -> leading_digits s acc = (v, junk) -> acc <= v.
Proof.
  induction s as [|c r IH]; simpl; intros acc v junk Hacc.
  - intros [= <- _]. lia.
  - destruct (json.is_digit c) eqn:Ed; [|intros [= <- _]; lia].
    intros Hv. apply IH in Hv; unfold json.is_digit in Ed;
      apply andb_prop in Ed as [E1 E2]; apply Z.leb_le in E1, E2; lia.
Qed.

Lemma ParseUint_loop_leading s0 s : forall n v junk,
  0 <= n <= maxVal32 ->
  leading_digits s n = (v, junk) ->
  ParseUint_loop s0 10 cutoff10 maxVal32 s n
  = if maxVal32 <? v then (maxVal32, Some (rangeError "ParseUint" s0))
    else match junk with
         | EmptyString => (v, None)
         | String _ _ => (0, Some (syntaxError "ParseUint" s0))
         end.
Proof.
  induction s as [|c r IH]; intros n v junk Hn; simpl.
  - intros [= <- <-]. destruct (maxVal32 <? n) eqn:E; [apply Z.ltb_lt in E; lia|reflexivity].
  - destruct (json.is_digit c) eqn:Ed.
    + rewrite (digit_of_digit _ Ed).
      assert (Hd : 0 <= byte_of c - 48 <= 9).
      { unfold json.is_digit in Ed. apply andb_prop in Ed as [E1 E2].
        apply Z.leb_le in E1, E2. lia. }
      set (d := byte_of c - 48) in *.
      assert (Hc : cutoff10 = 1844674407370955162) by reflexivity.
      assert (Hm : maxVal32 = 4294967295) by reflexivity.
      destruct (10 <=? d) eqn:E10; [apply Z.leb_le in E10; lia|].
      destruct (cutoff10 <=? n) eqn:Ecut; [apply Z.leb_le in Ecut; lia|].
      assert (H1 : u64 (n * 10) = n * 10).
      { unfold u64. apply Z.mod_small. lia. }
      rewrite H1.
      assert (H2 : u64 (n * 10 + d) = n * 10 + d).
      { unfold u64. apply Z.mod_small. lia. }
      rewrite H2.
      destruct (n * 10 + d <? n * 10) eqn:Elt; [apply Z.ltb_lt in Elt; lia|].
      simpl. intros Hv. destruct (maxVal32 <? n * 10 + d) eqn:Emax.
      * apply Z.ltb_lt in Emax. apply leading_digits_ge in Hv; [|lia].
        destruct (maxVal32 <? v) eqn:E; [reflexivity|apply Z.ltb_ge in E; lia].
      * apply Z.ltb_ge in Emax. apply IH; [lia|exact Hv].
    + intros [= <- <-].
      destruct (maxVal32 <? n) eqn:E; [apply Z.ltb_lt in E; lia|].
      destruct (digit_of (byte_of c)) as [d|] eqn:Edig; [|reflexivity].
      pose proof (digit_of_other _ _ Ed Edig) as Hd.
      destruct (10 <=? d) eqn:E10; [reflexivity|]. apply Z.leb_gt in E10. lia.
Qed.

(** [ParseInt] in terms of the sign and of the string after it. *)
Lemma ParseInt_signed s :
  s <> EmptyString ->
  ParseInt s 10 32 = ParseInt_after s (negative s) (ParseUint (unsigned s) 10 32).
Proof.
  destruct s as [|c r]; [congruence|]. intros _.
  rewrite ParseInt_unfold.
  destruct (Ascii.eqb c "+") eqn:E1.
  { apply Ascii.eqb_eq in E1. subst c. reflexivity. }
  destruct (Ascii.eqb c "-") eqn:E2.
  { apply Ascii.eqb_eq in E2. subst c. reflexivity. }
  destruct c as [[] [] [] [] [] [] [] []]; try reflexivity; discriminate.
Qed.

Lemma ParseUint_leading b v junk :
  b <> EmptyString ->
  leading_digits b 0 = (v, junk) ->
  ParseUint b 10 32
  = if maxVal32 <? v then (maxVal32, Some (rangeError "ParseUint" b))
    else match junk with
         | EmptyString => (v, None)
         | String _ _ => (0, Some (syntaxError "ParseUint" b))
         end.
Proof.
  destruct b as [|c r]; [congruence|]. intros _ Hl.
  rewrite ParseUint_10_32. apply ParseUint_loop_leading; [|exact Hl].
  assert (Hm : maxVal32 = 4294967295) by reflexivity. lia.
Qed.

Lemma parseFilters_loop_string str rest :
  parseFilters_loop (Some (mkFilter FilterTypeVulnerability (VString str)) :: rest)
  = match strconv.ParseInt str 10 32 with
    | (_, Some err) => errors.Err (Wrapf (OfStrconv err) "parse filters")
    | (sev, None) =>
        match parseFilters_loop rest with
        | Ok rest' => Ok (Some (mkFilter FilterTypeVulnerability (VInt (int_of_int64 sev))) :: rest')
        | errors.Err e => errors.Err e
        | Panic => Panic
        end
    end.
Proof.
  simpl. destruct (ParseInt str 10 32) as [sev [err|]]; reflexivity.
Qed.

(** X1.  A severity string with no digit after the sign, or with a byte that is
    no digit after digits that fit 32 bits, is a syntax error of [ParseInt];
    the loop ends there with that error under the context [parse filters],
    whatever follows in the sequence. *)
Theorem severity_string_syntax_error (str junk : string) (v : Z)
  (rest : list (ptr Filter)) :
  leading_digits (unsigned str) 0 = (v, junk) ->
  unsigned str = EmptyString \/ (junk <> EmptyString /\ v < 2 ^ 32) ->
  ParseInt str 10 32 = (0, Some (syntaxError "ParseInt" str))
  /\ parseFilters_loop (Some (mkFilter FilterTypeVulnerability (VString str)) :: rest)
     = errors.Err (Wrapf (OfStrconv (syntaxError "ParseInt" str)) "parse filters").
Proof.
  intros Hl Hc.
  assert (Hp : ParseInt str 10 32 = (0, Some (syntaxError "ParseInt" str))).
  { destruct str as [|c r]; [reflexivity|].
    rewrite ParseInt_signed by discriminate.
    destruct (unsigned (String c r)) as [|c' r'] eqn:Eb; [reflexivity|].
    destruct Hc as [Hc|[Hj Hv]]; [discriminate|].
    rewrite (ParseUint_leading _ v junk) by (discriminate || exact Hl).
    assert (Hm : maxVal32 = 4294967295) by reflexivity.
    destruct (maxVal32 <? v) eqn:E; [apply Z.ltb_lt in E; lia|].
    destruct junk; [congruence|]. reflexivity. }
  split; [exact Hp|]. rewrite parseFilters_loop_string, Hp. reflexivity.
Qed.

(** X2.  A severity string whose digits after the sign stand for a number
    beyond the 32-bit signed range is a range error of [ParseInt], which
    returns the nearest bound with it; so is one whose leading digits already
    exceed 32 bits, whatever follows them.  The loop ends there with that error
    under the context [parse filters]. *)
Theorem severity_string_range_error (str junk : string) (v : Z)
  (rest : list (ptr Filter)) :
  leading_digits (unsigned str) 0 = (v, junk) ->
  junk = EmptyString \/ 2 ^ 32 <= v ->
  (if negative str then 2 ^ 31 < v else 2 ^ 31 <= v) ->
  ParseInt str 10 32
  = (if negative str then - 2 ^ 31 else 2 ^ 31 - 1, Some (rangeError "ParseInt" str))
  /\ parseFilters_loop (Some (mkFilter FilterTypeVulnerability (VString str)) :: rest)
     = errors.Err (Wrapf (OfStrconv (rangeError "ParseInt" str)) "parse filters").
Proof.
  intros Hl Hc Hv.
  assert (Hp : ParseInt str 10 32
    = (if negative str then - 2 ^ 31 else 2 ^ 31 - 1, Some (rangeError "ParseInt" str))).
  { assert (Hm : maxVal32 = 4294967295) by reflexivity.
    destruct str as [|c r].
    { simpl in Hl. injection Hl as <- <-. simpl in Hv. lia. }
    rewrite ParseInt_signed by discriminate.
    destruct (unsigned (String c r)) as [|c' r'] eqn:Eb.
    { simpl in Hl. injection Hl as <- <-. destruct (negative _); lia. }
    rewrite (ParseUint_leading _ v junk) by (discriminate || exact Hl).
    unfold ParseInt_after.
    destruct (maxVal32 <? v) eqn:E.
    - simpl Err. cbv iota.
      destruct (negative (String c r)); simpl negb; simpl andb.
      + destruct (2 ^ 31 <? maxVal32) eqn:E3; [reflexivity|apply Z.ltb_ge in E3; lia].
      + destruct (2 ^ 31 <=? maxVal32) eqn:E3; [reflexivity|apply Z.leb_gt in E3; lia].
    - apply Z.ltb_ge in E. destruct Hc as [->|Hc]; [|lia].
      destruct (negative (String c r)); simpl negb; simpl andb.
      + destruct (2 ^ 31 <? v) eqn:E3; [reflexivity|apply Z.ltb_ge in E3; lia].
      + destruct (2 ^ 31 <=? v) eqn:E3; [reflexivity|apply Z.leb_gt in E3; lia]. }
  split; [exact Hp|]. rewrite parseFilters_loop_string, Hp.
  reflexivity.
Qed.

(** X3.  A severity string of digits after an optional sign, whose number with
    the sign is in the 32-bit signed range, is read by [ParseInt] as that
    number, leading zeros and a plus sign included; the loop writes it as an
    int and goes on with the rest of the sequence. *)
Theorem severity_string_accepted (str : string) (v : Z) (rest : list (ptr Filter)) :
  unsigned str <> EmptyString ->
  leading_digits (unsigned str) 0 = (v, EmptyString) ->
  (if negative str then v <= 2 ^ 31 else v < 2 ^ 31) ->
  ParseInt str 10 32 = (if negative str then - v else v, None)
  /\ parseFilters_loop (Some (mkFilter FilterTypeVulnerability (VString str)) :: rest)
     = match parseFilters_loop rest with
       | Ok rest' =>
           Ok (Some (mkFilter FilterTypeVulnerability
                       (VInt (if negative str then - v else v))) :: rest')
       | errors.Err e => errors.Err e
       | Panic => Panic
       end.
Proof.
  intros Hb Hl Hv.
  assert (H0 : 0 <= v) by (apply (leading_digits_ge _ 0 v EmptyString (Z.le_refl 0) Hl)).
  assert (Hp : ParseInt str 10 32 = (if negative str then - v else v, None)).
  { assert (Hm : maxVal32 = 4294967295) by reflexivity.
    destruct str as [|c r]; [now destruct Hb|].
    rewrite ParseInt_signed by discriminate.
    rewrite (ParseUint_leading _ v EmptyString Hb Hl).
    destruct (maxVal32 <? v) eqn:E.
    { apply Z.ltb_lt in E. destruct (negative (String c r)); lia. }
    unfold ParseInt_after. cbv iota.
    destruct (negative (String c r)); simpl negb; simpl andb.
    - destruct (2 ^ 31 <? v) eqn:E3; [apply Z.ltb_lt in E3; lia|].
      f_equal. unfold i64.
      rewrite (Z.mod_small (v + 2 ^ 63)) by lia.
      replace (v + 2 ^ 63 - 2 ^ 63) with v by lia.
      rewrite Z.mod_small by lia. lia.
    - destruct (2 ^ 31 <=? v) eqn:E3; [apply Z.leb_le in E3; lia|].
      f_equal. unfold i64. rewrite Z.mod_small by lia. lia. }
  split; [exact Hp|]. rewrite parseFilters_loop_string, Hp.
  unfold int_of_int64. rewrite i64_small; [reflexivity|].
  unfold int_min, int_max. destruct (negative str); lia.
Qed.

End severity_strings.

(** ** The loop of parseFilters and its outcomes *)

Section loop_properties.
Context `{O : Opaque} `{U : !Unmarshal} `{G : !GoImpl}.

Lemma coerce_again f f' : coerce f = inr f' -> coerce f' = inr f'.
Proof.
  unfold coerce, is_severity. destruct (String.eqb (Type_ f) _) eqn:Et.
  - destruct (Value f) eqn:Ev; try (intros [= <-]; rewrite Et, Ev; reflexivity).
    + intros [= <-]. simpl. rewrite Et. reflexivity.
    + destruct (strconv.ParseInt s 10 32) as [sev [err|]]; [discriminate|].
      intros [= <-]. simpl. rewrite Et. reflexivity.
  - intros [= <-]. rewrite Et. reflexivity.
Qed.

(** X4.  The loop of [parseFilters] goes through the sequence filter by filter,
    from the left: on two sequences one after the other it ends where it ends
    on the first if it fails or panics there, else where it ends on the
    second, and else yields the two outcomes one after the other. *)
Theorem parseFilters_loop_app (l1 l2 : list (ptr Filter)) :
  parseFilters_loop (l1 ++ l2)%list
  = match parseFilters_loop l1 with
    | Ok l1' =>
        match parseFilters_loop l2 with
        | Ok l2' => Ok (l1' ++ l2')%list
        | Err e => Err e
        | Panic => Panic
        end
    | Err e => Err e
    | Panic => Panic
    end.
Proof.
  induction l1 as [|[f|] l1 IH].
  - simpl. destruct (parseFilters_loop l2); reflexivity.
  - simpl app. rewrite !parseFilters_loop_cons, IH.
    destruct (coerce f) as [err|f']; [reflexivity|].
    destruct (parseFilters_loop l1); [|reflexivity|reflexivity].
    destruct (parseFilters_loop l2); reflexivity.
  - reflexivity.
Qed.

(** X5.  The loop leaves its own outcome as it is: the ints it wrote are values
    it keeps. *)
Theorem parseFilters_loop_idempotent (l l' : list (ptr Filter)) :
  parseFilters_loop l = Ok l' -> parseFilters_loop l' = Ok l'.
Proof.
  revert l'. induction l as [|[f|] l IH]; intros l'.
  - intros [= <-]. reflexivity.
  - rewrite parseFilters_loop_cons.
    destruct (coerce f) as [err|f'] eqn:Ec; [discriminate|].
    destruct (parseFilters_loop l) as [r| |]; [|discriminate|discriminate].
    intros [= <-]. rewrite parseFilters_loop_cons, (coerce_again _ _ Ec), (IH r eq_refl).
    reflexivity.
  - discriminate.
Qed.

(** X6.  [parseFilters] panics exactly on a text that is not empty and decodes
    to a sequence with a nil element before which every filter is coerced
    without error: the loop reads the type of the filter through the nil
    pointer. *)
Theorem parseFilters_panics (filterStr : string) :
  parseFilters filterStr = Panic
  <-> filterStr <> EmptyString
      /\ exists filters pre post,
           unmarshal_filters filterStr = inr filters
           /\ elems filters = ((Some <$> pre) ++ None :: post)%list
           /\ Forall (fun f => bad_severity f = false) pre.
Proof.
  assert (Hloop : forall l, parseFilters_loop l = Panic ->
    exists pre post, l = ((Some <$> pre) ++ None :: post)%list
                     /\ Forall (fun f => bad_severity f = false) pre).
  { induction l as [|[f|] l IH].
    - discriminate.
    - rewrite parseFilters_loop_cons.
      destruct (coerce f) as [err|f'] eqn:Ec; [discriminate|].
      destruct (parseFilters_loop l); [discriminate|discriminate|].
      intros _. destruct (IH eq_refl) as (pre & post & -> & Hpre).
      exists (f :: pre), post. split; [reflexivity|].
      constructor; [|exact Hpre].
      destruct (bad_severity f) eqn:Eb; [|reflexivity].
      apply coerce_bad in Eb as [err Eb]. congruence.
    - intros _. exists [], l. split; [reflexivity|constructor]. }
  unfold parseFilters. split.
  - destruct filterStr as [|c r]; [discriminate|]. simpl.
    destruct (unmarshal_filters (String c r)) as [err|filters]; [discriminate|].
    destruct (parseFilters_loop (elems filters)) eqn:El; [discriminate|discriminate|].
    intros _. split; [discriminate|].
    destruct (Hloop _ El) as (pre & post & Hl & Hpre). eauto 6.
  - intros [Hne (filters & pre & post & -> & -> & Hpre)].
    rewrite (nonempty_length _ Hne), (parseFilters_loop_panic pre post Hpre). reflexivity.
Qed.

(** X7.  An error of [parseFilters] is the decode error of the text as it is,
    or the error of [ParseInt] on the string of a severity filter of the
    decoded sequence, a syntax or a range error that names the string, under
    the context [parse filters]. *)
Theorem parseFilters_error (filterStr : string) (e : error) :
  parseFilters filterStr = Err e ->
  filterStr <> EmptyString
  /\ ((exists je, unmarshal_filters filterStr = inl je /\ e = OfJSON je)
      \/ (exists filters f str w r,
            unmarshal_filters filterStr = inr filters
            /\ Some f ∈ elems filters
            /\ Type_ f = FilterTypeVulnerability
            /\ Value f = VString str
            /\ strconv.ParseInt str 10 32 = (w, Some (strconv.mkNumError "ParseInt" str r))
            /\ (r = strconv.ErrSyntax \/ r = strconv.ErrRange)
            /\ e = Wrapf (OfStrconv (strconv.mkNumError "ParseInt" str r)) "parse filters")).
Proof.
  assert (Hloop : forall l, parseFilters_loop l = Err e ->
    exists f str w r,
      Some f ∈ l /\ Type_ f = FilterTypeVulnerability /\ Value f = VString str
      /\ strconv.ParseInt str 10 32 = (w, Some (strconv.mkNumError "ParseInt" str r))
      /\ (r = strconv.ErrSyntax \/ r = strconv.ErrRange)
      /\ e = Wrapf (OfStrconv (strconv.mkNumError "ParseInt" str r)) "parse filters").
  { induction l as [|[f|] l IH].
    - discriminate.
    - rewrite parseFilters_loop_cons.
      destruct (coerce f) as [err|f'] eqn:Ec.
      + intros [= <-].
        destruct (coerce_error _ _ Ec) as (_ & Hs & str & w & Hv & Hi & Hp).
        destruct (ParseInt_not_int32 _ Hi) as (w' & r & Hp' & Hr).
        rewrite Hp in Hp'. injection Hp' as <- ->.
        exists f, str, w, r. repeat split; try assumption.
        * rewrite elem_of_cons. now left.
        * apply String.eqb_eq. exact Hs.
      + destruct (parseFilters_loop l); [discriminate| |discriminate].
        intros [= ->]. destruct (IH eq_refl) as (f0 & str & w & r & Hin & H).
        exists f0, str, w, r. split; [|exact H]. rewrite elem_of_cons. now right.
    - discriminate. }
  unfold parseFilters. destruct filterStr as [|c r]; [discriminate|]. simpl.
  intros He. split; [discriminate|].
  destruct (unmarshal_filters (String c r)) as [err|filters].
  - left. injection He as <-. eauto.
  - right. destruct (parseFilters_loop (elems filters)) eqn:El; [discriminate| |discriminate].
    injection He as ->.
    destruct (Hloop _ El) as (f & str & w & r0 & H). exists filters, f, str, w, r0.
    split; [reflexivity|exact H].
Qed.

(** X8.  A severity written as a string and one written as a float are coerced
    to the same filter when [ParseInt] reads the string as the integer part of
    the float. *)
Theorem severity_string_float_agree (str : string) (x : spec_float) (n : Z) :
  strconv.ParseInt str 10 32 = (n, None) ->
  float64_trunc x = Some n ->
  parseFilters_loop [Some (mkFilter FilterTypeVulnerability (VString str))]
  = Ok [Some (mkFilter FilterTypeVulnerability (VInt n))]
  /\ parseFilters_loop [Some (mkFilter FilterTypeVulnerability (VFloat64 x))]
     = Ok [Some (mkFilter FilterTypeVulnerability (VInt n))].
Proof.
  intros Hp Hx.
  assert (Hn : - 2 ^ 31 <= n < 2 ^ 31).
  { destruct (decimal.int32 str) as [n'|] eqn:Ei.
    - pose proof (ParseInt_int32 _ _ Ei) as Hp'. rewrite Hp in Hp'. injection Hp' as ->.
      unfold decimal.int32 in Ei.
      destruct (match str with
                | String "+" r => (false, r)
                | String "-" r => (true, r)
                | _ => (false, str)
                end) as [neg body].
      destruct body; [discriminate|].
      destruct (decimal.digits_value _ 0) as [v|]; [|discriminate].
      destruct (_ && _) eqn:E; [|discriminate]. injection Ei as <-.
      apply andb_prop in E as [E1 E2]. apply Z.leb_le in E1. apply Z.ltb_lt in E2. lia.
    - destruct (ParseInt_not_int32 _ Ei) as (w & r & Hp' & _). congruence. }
  split.
  - simpl. rewrite Hp. unfold int_of_int64. rewrite i64_small; [reflexivity|].
    unfold int_min, int_max. lia.
  - simpl. rewrite (int_of_float64_trunc x n Hx); [reflexivity|].
    unfold int_min, int_max. lia.
Qed.

End loop_properties.

(** ** What the normalization pass writes *)

Section pass_properties.
Context `{O : Opaque} `{U : !Unmarshal} `{G : !GoImpl}.

(** What [parsePolicy] does on a schema of the heap, step by step. *)
Lemma parsePolicy_cases l h s :
  h !! l = Some s ->
  match parseFilters (FiltersStr s) with
  | Ok fs =>
      match parseTrigger (TriggerStr s) with
      | Ok t => parsePolicy (Some l) h = (<[l := set_Trigger (set_Filters s fs) t]> h, Ok l)
      | Err e => parsePolicy (Some l) h = (<[l := set_Filters s fs]> h, Err e)
      | Panic => parsePolicy (Some l) h = (<[l := set_Filters s fs]> h, Panic)
      end
  | Err e => parsePolicy (Some l) h = (h, Err e)
  | Panic => parsePolicy (Some l) h = (h, Panic)
  end.
Proof.
  intros Hl. unfold parsePolicy. rewrite Hl.
  destruct (parseFilters (FiltersStr s)) as [fs| |]; auto.
  change (TriggerStr (set_Filters s fs)) with (TriggerStr s).
  destruct (parseTrigger (TriggerStr s)) as [t| |]; auto.
  now rewrite insert_insert_eq.
Qed.

Lemma parsePolicy_ok schema h h' l :
  parsePolicy schema h = (h', Ok l) ->
  schema = Some l
  /\ exists s fs t,
       h !! l = Some s
       /\ parseFilters (FiltersStr s) = Ok fs
       /\ parseTrigger (TriggerStr s) = Ok t
       /\ h' = <[l := set_Trigger (set_Filters s fs) t]> h.
Proof.
  destruct schema as [l0|]; [|discriminate].
  destruct (h !! l0) as [s|] eqn:Hl.
  - pose proof (parsePolicy_cases l0 h s Hl) as Hp.
    destruct (parseFilters (FiltersStr s)) as [fs| |] eqn:Ef;
      [|rewrite Hp; discriminate|rewrite Hp; discriminate].
    destruct (parseTrigger (TriggerStr s)) as [t| |] eqn:Et;
      [|rewrite Hp; discriminate|rewrite Hp; discriminate].
    rewrite Hp. intros [= <- <-]. split; [reflexivity|]. exists s, fs, t. auto.
  - unfold parsePolicy. rewrite Hl. discriminate.
Qed.

(** X9.  A second pass over a schema the pass normalized succeeds and changes
    nothing: the derived fields are read off the raw texts, which the pass
    does not write. *)
Theorem parsePolicy_idempotent (schema : ptr loc) (h h' : gmap loc Schema) (l : loc) :
  parsePolicy schema h = (h', Ok l) -> parsePolicy schema h' = (h', Ok l).
Proof.
  intros Hp. destruct (parsePolicy_ok _ _ _ _ Hp) as (-> & s & fs & t & Hl & Hf & Ht & ->).
  pose proof (parsePolicy_cases l (<[l := set_Trigger (set_Filters s fs) t]> h)
                (set_Trigger (set_Filters s fs) t) (lookup_insert_eq _ _ _)) as Hq.
  simpl FiltersStr in Hq. simpl TriggerStr in Hq. rewrite Hf, Ht in Hq.
  rewrite Hq, insert_insert_eq. reflexivity.
Qed.

(** X10.  Whatever its outcome, the pass adds and removes no schema, leaves
    every schema but the one it is given as it is, and writes none of the
    fields the store persists; when it does not succeed the trigger field is
    as before, and the filters field is as before or holds the parsed filters. *)
Theorem parsePolicy_writes (schema : ptr loc) (h : gmap loc Schema) :
  dom (parsePolicy schema h).1 = dom h
  /\ (forall l, schema <> Some l -> (parsePolicy schema h).1 !! l = h !! l)
  /\ (forall l s, h !! l = Some s ->
        exists s', (parsePolicy schema h).1 !! l = Some s'
          /\ persisted s' = persisted s
          /\ ((forall l', (parsePolicy schema h).2 <> Ok l') ->
                Trigger s' = Trigger s
                /\ (Filters s' = Filters s
                    \/ (schema = Some l /\ parseFilters (FiltersStr s) = Ok (Filters s'))))).
Proof.
  destruct schema as [l0|].
  2:{ simpl. split; [reflexivity|]. split; [reflexivity|]. intros l s Hl. exists s. auto. }
  destruct (h !! l0) as [s0|] eqn:Hl0.
  2:{ unfold parsePolicy. rewrite Hl0. simpl. split; [reflexivity|]. split; [reflexivity|].
      intros l s Hl. exists s. auto. }
  pose proof (parsePolicy_cases l0 h s0 Hl0) as Hp.
  assert (Hins : forall s', persisted s' = persisted s0 ->
    (forall l', (parsePolicy (Some l0) h).2 <> Ok l') ->
    Trigger s' = Trigger s0 ->
    Filters s' = Filters s0 \/ parseFilters (FiltersStr s0) = Ok (Filters s') ->
    (parsePolicy (Some l0) h).1 = <[l0 := s']> h ->
    dom (parsePolicy (Some l0) h).1 = dom h
    /\ (forall l, Some l0 <> Some l -> (parsePolicy (Some l0) h).1 !! l = h !! l)
    /\ (forall l s, h !! l = Some s ->
          exists s', (parsePolicy (Some l0) h).1 !! l = Some s'
            /\ persisted s' = persisted s
            /\ ((forall l', (parsePolicy (Some l0) h).2 <> Ok l') ->
                  Trigger s' = Trigger s
                  /\ (Filters s' = Filters s
                      \/ (Some l0 = Some l /\ parseFilters (FiltersStr s) = Ok (Filters s')))))).
  { intros s' Hs Hno Ht Hf ->. split; [|split].
    - apply dom_insert_lookup_L. eauto.
    - intros l Hne. apply lookup_insert_ne. congruence.
    - intros l s Hl. destruct (decide (l = l0)) as [->|Hne].
      + rewrite lookup_insert_eq. exists s'. rewrite Hl0 in Hl. injection Hl as <-.
        split; [reflexivity|]. split; [exact Hs|]. intros _. split; [exact Ht|].
        destruct Hf; auto.
      + rewrite lookup_insert_ne by congruence. exists s. auto. }
  assert (Hid : (parsePolicy (Some l0) h).1 = h ->
    dom (parsePolicy (Some l0) h).1 = dom h
    /\ (forall l, Some l0 <> Some l -> (parsePolicy (Some l0) h).1 !! l = h !! l)
    /\ (forall l s, h !! l = Some s ->
          exists s', (parsePolicy (Some l0) h).1 !! l = Some s'
            /\ persisted s' = persisted s
            /\ ((forall l', (parsePolicy (Some l0) h).2 <> Ok l') ->
                  Trigger s' = Trigger s
                  /\ (Filters s' = Filters s
                      \/ (Some l0 = Some l /\ parseFilters (FiltersStr s) = Ok (Filters s')))))).
  { intros ->. split; [reflexivity|]. split; [reflexivity|]. intros l s Hl. exists s. auto. }
  destruct (parseFilters (FiltersStr s0)) as [fs| |] eqn:Ef;
    [|apply Hid; now rewrite Hp|apply Hid; now rewrite Hp].
  destruct (parseTrigger (TriggerStr s0)) as [t| |] eqn:Et.
  - rewrite Hp. simpl. split; [|split].
    + apply dom_insert_lookup_L. eauto.
    + intros l Hne. apply lookup_insert_ne. congruence.
    + intros l s Hl. destruct (decide (l = l0)) as [->|Hne].
      * rewrite lookup_insert_eq. eexists. split; [reflexivity|].
        rewrite Hl0 in Hl. injection Hl as <-. split; [reflexivity|].
        intros Hno. now destruct (Hno l0).
      * rewrite lookup_insert_ne by congruence. exists s. auto.
  - apply (Hins (set_Filters s0 fs)); try reflexivity; try (now rewrite Hp); auto.
  - apply (Hins (set_Filters s0 fs)); try reflexivity; try (now rewrite Hp); auto.
Qed.

(** X11.  The outcome of the pass is a function of the two raw texts: whatever
    the derived fields hold before, schemas with the same raw texts fare the
    same and, on success, end with the same filters and trigger. *)
Theorem parsePolicy_raw_texts (l : loc) (h1 h2 : gmap loc Schema) (s1 s2 : Schema) :
  h1 !! l = Some s1 ->
  h2 !! l = Some s2 ->
  FiltersStr s1 = FiltersStr s2 ->
  TriggerStr s1 = TriggerStr s2 ->
  (parsePolicy (Some l) h1).2 = (parsePolicy (Some l) h2).2
  /\ (forall l', (parsePolicy (Some l) h1).2 = Ok l' ->
        exists s1' s2',
          (parsePolicy (Some l) h1).1 !! l = Some s1'
          /\ (parsePolicy (Some l) h2).1 !! l = Some s2'
          /\ Filters s1' = Filters s2' /\ Trigger s1' = Trigger s2').
Proof.
  intros H1 H2 Hf Ht.
  pose proof (parsePolicy_cases l h1 s1 H1) as P1.
  pose proof (parsePolicy_cases l h2 s2 H2) as P2.
  rewrite <- Hf, <- Ht in P2.
  destruct (parseFilters (FiltersStr s1)) as [fs| |];
    [|rewrite P1, P2; simpl; split; [reflexivity|discriminate]
     |rewrite P1, P2; simpl; split; [reflexivity|discriminate]].
  destruct (parseTrigger (TriggerStr s1)) as [t| |];
    rewrite P1, P2; simpl; (split; [reflexivity|]); try discriminate.
  intros l' _. rewrite !lookup_insert_eq.
  exists (set_Trigger (set_Filters s1 fs) t), (set_Trigger (set_Filters s2 fs) t).
  repeat split; reflexivity.
Qed.

(** X12.  After a pass that succeeded the trigger is nil exactly when the raw
    trigger text is empty, and the filters are nil exactly when the raw
    filters text is empty or decodes to a nil slice. *)
Theorem parsePolicy_nil_fields (schema : ptr loc) (h h' : gmap loc Schema) (l : loc) :
  parsePolicy schema h = (h', Ok l) ->
  exists s',
    h' !! l = Some s'
    /\ (Trigger s' = None <-> TriggerStr s' = EmptyString)
    /\ (Filters s' = None
        <-> FiltersStr s' = EmptyString \/ unmarshal_filters (FiltersStr s') = inr None).
Proof.
  intros Hp. destruct (parsePolicy_ok _ _ _ _ Hp) as (-> & s & fs & t & Hl & Hf & Ht & ->).
  exists (set_Trigger (set_Filters s fs) t). rewrite lookup_insert_eq.
  split; [reflexivity|]. simpl. split.
  - unfold parseTrigger in Ht. destruct (TriggerStr s) as [|c r]; simpl in Ht.
    + injection Ht as <-. tauto.
    + destruct (unmarshal_trigger (String c r)); [discriminate|]. injection Ht as <-.
      split; discriminate.
  - unfold parseFilters in Hf. destruct (FiltersStr s) as [|c r]; simpl in Hf.
    + injection Hf as <-. tauto.
    + destruct (unmarshal_filters (String c r)) as [je|filters]; [discriminate|].
      destruct (parseFilters_loop (elems filters)); [|discriminate|discriminate].
      injection Hf as <-. destruct filters; split.
      * discriminate.
      * intros [|]; discriminate.
      * intros _. now right.
      * reflexivity.
Qed.

End pass_properties.

(** ** The reads: Get, GetByName and ListPolicies *)

Section read_properties.
Context `{O : Opaque} `{U : !Unmarshal} `{G : !GoImpl} `{D : !dao.DAO}.

(** What the pass returns on the answer of a read of the store. *)
Lemma parsePolicy_outcomes (schema : ptr loc) (h0 : gmap loc Schema) :
  (forall h' e, parsePolicy schema h0 = (h', Err e) ->
     (schema = None /\ h' = h0 /\ e = New "policy schema can not be nil")
     \/ exists l s,
          schema = Some l /\ h0 !! l = Some s
          /\ ((parseFilters (FiltersStr s) = Err e /\ h' = h0)
              \/ exists fs, parseFilters (FiltersStr s) = Ok fs
                            /\ parseTrigger (TriggerStr s) = Err e
                            /\ h' = <[l := set_Filters s fs]> h0)).
Proof.
  intros h' e. destruct schema as [l|].
  - destruct (h0 !! l) as [s|] eqn:Hl.
    + pose proof (parsePolicy_cases l h0 s Hl) as Hp. intros He. right. exists l, s.
      split; [reflexivity|]. split; [exact Hl|].
      destruct (parseFilters (FiltersStr s)) as [fs| |].
      * right. exists fs. split; [reflexivity|].
        destruct (parseTrigger (TriggerStr s)) as [t| |]; rewrite Hp in He;
          try discriminate. injection He as <- <-. auto.
      * left. rewrite Hp in He. injection He as <- <-. auto.
      * rewrite Hp in He. discriminate.
    + unfold parsePolicy. rewrite Hl. discriminate.
  - intros [= <- <-]. left. auto.
Qed.

(** X13.  [Get] hands on an error of the store as it is, and answers a nil
    schema of the store with the error of the pass and no panic.  An error of
    [Get] is one of those two, or the error of [parseFilters] or of
    [parseTrigger] on a raw text of the schema the store answered with.  A
    schema [Get] returns is the one the store answered with, its two derived
    fields parsed from its raw texts. *)
Theorem Get_outcome (id : Z) (h : gmap loc Schema) :
  (forall h' e, dao.Get id h = (h', Err e) -> Get id h = (h', Err e))
  /\ (forall h', dao.Get id h = (h', Ok None) ->
        Get id h = (h', Err (New "policy schema can not be nil")))
  /\ (forall h' e, Get id h = (h', Err e) ->
        dao.Get id h = (h', Err e)
        \/ (dao.Get id h = (h', Ok None) /\ e = New "policy schema can not be nil")
        \/ exists h0 l s,
             dao.Get id h = (h0, Ok (Some l)) /\ h0 !! l = Some s
             /\ ((parseFilters (FiltersStr s) = Err e /\ h' = h0)
                 \/ exists fs, parseFilters (FiltersStr s) = Ok fs
                               /\ parseTrigger (TriggerStr s) = Err e
                               /\ h' = <[l := set_Filters s fs]> h0))
  /\ (forall h' l, Get id h = (h', Ok l) ->
        exists h0 s fs t,
          dao.Get id h = (h0, Ok (Some l)) /\ h0 !! l = Some s
          /\ parseFilters (FiltersStr s) = Ok fs
          /\ parseTrigger (TriggerStr s) = Ok t
          /\ h' = <[l := set_Trigger (set_Filters s fs) t]> h0).
Proof.
  unfold Get. destruct (dao.Get id h) as [h0 [schema|e0|]].
  - split; [discriminate|]. split; [intros h' [= <- ->]; reflexivity|]. split.
    + intros h' e He.
      destruct (parsePolicy_outcomes schema h0 h' e He) as [(-> & -> & ->)|(l & s & -> & H)].
      * right. left. auto.
      * right. right. exists h0, l, s. auto.
    + intros h' l Hp.
      destruct (parsePolicy_ok _ _ _ _ Hp) as (-> & s & fs & t & H). exists h0, s, fs, t. auto.
  - split; [intros h' e [= <- <-]; reflexivity|]. split; [discriminate|].
    split; [intros h' e [= <- <-]; now left|discriminate].
  - split; [discriminate|]. split; [discriminate|]. split; discriminate.
Qed.

(** X14.  [GetByName] hands on an error of the store as it is, and answers a
    nil schema of the store with the error of the pass and no panic.  An error
    of [GetByName] is one of those two, or the error of [parseFilters] or of
    [parseTrigger] on a raw text of the schema the store answered with.  A
    schema [GetByName] returns is the one the store answered with, its two
    derived fields parsed from its raw texts. *)
Theorem GetByName_outcome (projectID : Z) (name : string) (h : gmap loc Schema) :
  (forall h' e, dao.GetByName projectID name h = (h', Err e) ->
     GetByName projectID name h = (h', Err e))
  /\ (forall h', dao.GetByName projectID name h = (h', Ok None) ->
        GetByName projectID name h = (h', Err (New "policy schema can not be nil")))
  /\ (forall h' e, GetByName projectID name h = (h', Err e) ->
        dao.GetByName projectID name h = (h', Err e)
        \/ (dao.GetByName projectID name h = (h', Ok None)
            /\ e = New "policy schema can not be nil")
        \/ exists h0 l s,
             dao.GetByName projectID name h = (h0, Ok (Some l)) /\ h0 !! l = Some s
             /\ ((parseFilters (FiltersStr s) = Err e /\ h' = h0)
                 \/ exists fs, parseFilters (FiltersStr s) = Ok fs
                               /\ parseTrigger (TriggerStr s) = Err e
                               /\ h' = <[l := set_Filters s fs]> h0))
  /\ (forall h' l, GetByName projectID name h = (h', Ok l) ->
        exists h0 s fs t,
          dao.GetByName projectID name h = (h0, Ok (Some l)) /\ h0 !! l = Some s
          /\ parseFilters (FiltersStr s) = Ok fs
          /\ parseTrigger (TriggerStr s) = Ok t
          /\ h' = <[l := set_Trigger (set_Filters s fs) t]> h0).
Proof.
  unfold GetByName. destruct (dao.GetByName projectID name h) as [h0 [schema|e0|]].
  - split; [discriminate|]. split; [intros h' [= <- ->]; reflexivity|]. split.
    + intros h' e He.
      destruct (parsePolicy_outcomes schema h0 h' e He) as [(-> & -> & ->)|(l & s & -> & H)].
      * right. left. auto.
      * right. right. exists h0, l, s. auto.
    + intros h' l Hp.
      destruct (parsePolicy_ok _ _ _ _ Hp) as (-> & s & fs & t & H). exists h0, s, fs, t. auto.
  - split; [intros h' e [= <- <-]; reflexivity|]. split; [discriminate|].
    split; [intros h' e [= <- <-]; now left|discriminate].
  - split; [discriminate|]. split; [discriminate|]. split; discriminate.
Qed.

(** X15.  On a schema the store answered with, [Get] panics exactly when
    [parseFilters] panics on the raw filters text, that is at a nil element of
    the decoded sequence; [parseTrigger] does not panic. *)
Theorem Get_panics (id : Z) (h h0 : gmap loc Schema) (l : loc) (s : Schema) :
  dao.Get id h = (h0, Ok (Some l)) ->
  h0 !! l = Some s ->
  ((Get id h).2 = Panic <-> parseFilters (FiltersStr s) = Panic)
  /\ parseTrigger (TriggerStr s) <> Panic.
Proof.
  intros Hd Hl.
  assert (Ht : parseTrigger (TriggerStr s) <> Panic).
  { unfold parseTrigger. destruct (String.length (TriggerStr s) =? 0)%nat; [discriminate|].
    destruct (unmarshal_trigger (TriggerStr s)); discriminate. }
  split; [|exact Ht].
  unfold Get. rewrite Hd. pose proof (parsePolicy_cases l h0 s Hl) as Hp.
  destruct (parseFilters (FiltersStr s)) as [fs| |].
  - destruct (parseTrigger (TriggerStr s)) as [t| |]; rewrite Hp; simpl;
      split; try discriminate; congruence.
  - rewrite Hp. simpl. split; discriminate.
  - rewrite Hp. simpl. split; reflexivity.
Qed.

(** *** The loop of ListPolicies *)

Lemma parsePolicy_other (schema : ptr loc) (h : gmap loc Schema) (l : loc) :
  schema <> Some l -> (parsePolicy schema h).1 !! l = h !! l.
Proof.
  intros Hne. destruct schema as [l0|]; [|reflexivity].
  destruct (h !! l0) as [s|] eqn:Hl.
  - pose proof (parsePolicy_cases l0 h s Hl) as Hp.
    destruct (parseFilters (FiltersStr s)); [|now rewrite Hp|now rewrite Hp].
    destruct (parseTrigger (TriggerStr s)); rewrite Hp; simpl;
      apply lookup_insert_ne; congruence.
  - unfold parsePolicy. now rewrite Hl.
Qed.

Lemma ListPolicies_loop_other (page : list (ptr loc)) (l : loc) : forall h,
  Some l ∉ page -> (ListPolicies_loop page h).1 !! l = h !! l.
Proof.
  induction page as [|p rest IH]; intros h Hl; [reflexivity|].
  rewrite not_elem_of_cons in Hl. destruct Hl as [Hp Hrest].
  pose proof (parsePolicy_other p h l ltac:(congruence)) as Ho.
  simpl. destruct (parsePolicy p h) as [h1 [l1|e|]]; simpl in Ho; [|exact Ho|exact Ho].
  specialize (IH h1 Hrest).
  destruct (ListPolicies_loop rest h1) as [h2 [r|e|]]; simpl in *; congruence.
Qed.

Lemma ListPolicies_loop_app (pre rest : list (ptr loc)) : forall h,
  ListPolicies_loop (pre ++ rest) h
  = match ListPolicies_loop pre h with
    | (h1, Ok pre') =>
        match ListPolicies_loop rest h1 with
        | (h2, Ok rest') => (h2, Ok (pre' ++ rest')%list)
        | (h2, Err e) => (h2, Err e)
        | (h2, Panic) => (h2, Panic)
        end
    | (h1, Err e) => (h1, Err e)
    | (h1, Panic) => (h1, Panic)
    end.
Proof.
  induction pre as [|p pre IH]; intros h.
  - simpl. destruct (ListPolicies_loop rest h) as [h2 [r|e|]]; reflexivity.
  - simpl. destruct (parsePolicy p h) as [h1 [l1|e|]]; [|reflexivity|reflexivity].
    rewrite IH. destruct (ListPolicies_loop pre h1) as [h2 [r|e|]]; [|reflexivity|reflexivity].
    destruct (ListPolicies_loop rest h2) as [h3 [r'|e|]]; reflexivity.
Qed.

(** X16.  [ListPolicies] returns no list when the pass fails on a schema of the
    page, yet the schemas before it are normalized by then and stay so: the
    failure is atomic in what is returned, not in the heap.  The schemas after
    the failing one, unless they are also before it, are as the store left
    them. *)
Theorem ListPolicies_failure_heap (query : ptr loc) (w : world) (h : gmap loc Schema)
  (page : slice (ptr loc)) (pre post : list (ptr loc)) (p : ptr loc) (e : error) :
  dao.List query w = (h, Ok page) ->
  elems page = (pre ++ p :: post)%list ->
  (forall q, q ∈ pre -> normalizes q h) ->
  fails_with p h e ->
  (ListPolicies query w).2 = Err e
  /\ (forall l, Some l ∈ pre ->
        schemas (ListPolicies query w).1 !! l = h !! l ≫= normalized)
  /\ (forall l, Some l ∉ pre -> p <> Some l ->
        schemas (ListPolicies query w).1 !! l = h !! l).
Proof.
  intros HL Hpage Hpre Hp.
  assert (Hff : first_failure pre h = Ok tt).
  { apply first_failure_ok. intros q Hq. apply normalizes_verdict. auto. }
  pose proof (ListPolicies_loop_result pre h) as Hres. rewrite Hff in Hres.
  pose proof (ListPolicies_loop_heap pre h Hff) as Hheap.
  pose proof (ListPolicies_loop_persisted pre h) as Hper.
  destruct (ListPolicies_loop pre h) as [h1 r1] eqn:Epre. simpl in Hres, Hheap, Hper. subst r1.
  apply fails_with_verdict in Hp.
  assert (Hp1 : verdict p h1 = Err e).
  { rewrite <- Hp. apply verdict_persisted. exact Hper. }
  apply fails_with_verdict in Hp1 as [h2 Hp1].
  assert (Hloop : ListPolicies_loop (elems page) h = (h2, Err e)).
  { rewrite Hpage, ListPolicies_loop_app, Epre. simpl. rewrite Hp1. reflexivity. }
  assert (Hw : ListPolicies query w = (set_schemas w h2, Err e)).
  { unfold ListPolicies. rewrite HL, Hloop. reflexivity. }
  rewrite Hw. simpl. split; [reflexivity|].
  assert (Hh2 : forall l, p <> Some l -> h2 !! l = h1 !! l).
  { intros l Hne. pose proof (parsePolicy_other p h1 l Hne) as Ho. now rewrite Hp1 in Ho. }
  split.
  - intros l Hl. rewrite Hh2.
    + rewrite Hheap. now rewrite decide_True.
    + intros ->. specialize (Hpre _ Hl). apply normalizes_verdict in Hpre. congruence.
  - intros l Hl Hne. rewrite (Hh2 l Hne), Hheap. now rewrite decide_False.
Qed.

(** X17.  Whatever the store answers and however the loop ends, [ListPolicies]
    adds and removes no schema, writes none of the fields the store persists,
    and leaves every schema outside the page as the store left it. *)
Theorem ListPolicies_writes (query : ptr loc) (w : world) (h : gmap loc Schema)
  (r : result (slice (ptr loc))) :
  dao.List query w = (h, r) ->
  dom (schemas (ListPolicies query w).1) = dom h
  /\ persisted <$> schemas (ListPolicies query w).1 = persisted <$> h
  /\ (forall l, (forall page, r = Ok page -> Some l ∉ elems page) ->
        schemas (ListPolicies query w).1 !! l = h !! l).
Proof.
  intros HL.
  assert (Hper : persisted <$> schemas (ListPolicies query w).1 = persisted <$> h).
  { unfold ListPolicies. rewrite HL. destruct r as [page|e|]; try reflexivity.
    pose proof (ListPolicies_loop_persisted (elems page) h) as Hp.
    destruct (ListPolicies_loop (elems page) h) as [h1 [l|e|]]; exact Hp. }
  split; [|split; [exact Hper|]].
  - rewrite <- (dom_fmap_L persisted (schemas _)), Hper. apply dom_fmap_L.
  - intros l Hl. unfold ListPolicies. rewrite HL. destruct r as [page|e|]; try reflexivity.
    pose proof (ListPolicies_loop_other (elems page) l h (Hl page eq_refl)) as Ho.
    destruct (ListPolicies_loop (elems page) h) as [h1 [l1|e|]]; exact Ho.
Qed.

(** X18.  A list [ListPolicies] returns holds no nil pointer, and the pass run
    again on a schema of it succeeds and changes nothing. *)
Theorem ListPolicies_normalized (query : ptr loc) (w : world)
  (out : slice (ptr loc)) :
  (ListPolicies query w).2 = Ok out ->
  (None ∉ elems out)
  /\ forall l, Some l ∈ elems out ->
       parsePolicy (Some l) (schemas (ListPolicies query w).1)
       = (schemas (ListPolicies query w).1, Ok l).
Proof.
  unfold ListPolicies. destruct (dao.List query w) as [h [page|e|]]; try discriminate.
  pose proof (ListPolicies_loop_result (elems page) h) as Hres.
  destruct (first_failure (elems page) h) as [[]|e|] eqn:Hff.
  2:{ destruct (ListPolicies_loop (elems page) h) as [h1 r1]. simpl in Hres. subst r1.
      discriminate. }
  2:{ destruct (ListPolicies_loop (elems page) h) as [h1 r1]. simpl in Hres. subst r1.
      discriminate. }
  pose proof (ListPolicies_loop_heap (elems page) h Hff) as Hheap.
  destruct (ListPolicies_loop (elems page) h) as [h1 r1]. simpl in Hres, Hheap. subst r1.
  cbn [fst snd]. intros [= <-].
  match goal with |- context [elems ?o] => assert (Hout : elems o = elems page)
    by (destruct page; reflexivity); rewrite Hout end.
  change (schemas (set_schemas w h1)) with h1.
  pose proof (proj1 (first_failure_ok _ _) Hff) as Hall. split.
  - intros Hn. specialize (Hall _ Hn). discriminate.
  - intros l Hl. specialize (Hall _ Hl). unfold verdict in Hall.
    destruct (h !! l) as [s|] eqn:Hs; [|discriminate].
    destruct (normal_form s) as [s'| |] eqn:En; try discriminate.
    assert (H1 : h1 !! l = Some s').
    { rewrite Hheap, decide_True by exact Hl. rewrite Hs. simpl. unfold normalized.
      now rewrite En. }
    pose proof (parsePolicy_normal_form l h1 s' H1) as Hp.
    rewrite (normal_form_idem _ _ En) in Hp. rewrite Hp, (insert_id _ _ _ H1). reflexivity.
Qed.

End read_properties.

(** ** The errors of ListPolicies *)

Section list_errors.
Context `{O : Opaque} `{U : !Unmarshal} `{G : !GoImpl} `{D : !dao.DAO}.

Lemma first_failure_inv (page : list (ptr loc)) (h : gmap loc Schema) (e : error) :
  first_failure page h = Err e ->
  exists pre p post,
    page = (pre ++ p :: post)%list
    /\ (forall q, q ∈ pre -> verdict q h = Ok tt)
    /\ verdict p h = Err e.
Proof.
  induction page as [|p rest IH]; [discriminate|]. simpl.
  destruct (verdict p h) as [[]|e0|] eqn:Ev; [|intros [= ->]|discriminate].
  - intros Hf. destruct (IH Hf) as (pre & p' & post & -> & Hpre & Hp').
    exists (p :: pre), p', post. split; [reflexivity|]. split; [|exact Hp'].
    intros q Hq. apply elem_of_cons in Hq as [->|Hq]; auto.
  - exists [], p, rest. split; [reflexivity|]. split; [|exact Ev].
    intros q Hq. now apply elem_of_nil in Hq.
Qed.

(** X19.  An error of [ListPolicies] is the error of the store, or the error of
    the pass on the first schema of the page it fails on, every schema before
    that one normalizing. *)
Theorem ListPolicies_error (query : ptr loc) (w : world) (e : error) :
  (ListPolicies query w).2 = Err e ->
  (exists h, dao.List query w = (h, Err e))
  \/ exists h page pre p post,
       dao.List query w = (h, Ok page)
       /\ elems page = (pre ++ p :: post)%list
       /\ (forall q, q ∈ pre -> normalizes q h)
       /\ fails_with p h e.
Proof.
  unfold ListPolicies. destruct (dao.List query w) as [h [page|e0|]].
  - pose proof (ListPolicies_loop_result (elems page) h) as Hres.
    destruct (ListPolicies_loop (elems page) h) as [h1 r1]. simpl in Hres. subst r1.
    destruct (first_failure (elems page) h) as [[]|e0|] eqn:Hff; try discriminate.
    cbn [fst snd]. intros [= ->]. right.
    destruct (first_failure_inv _ _ _ Hff) as (pre & p & post & Hpage & Hpre & Hp).
    exists h, page, pre, p, post. split; [reflexivity|]. split; [exact Hpage|]. split.
    + intros q Hq. apply normalizes_verdict. auto.
    + apply fails_with_verdict. exact Hp.
  - cbn [fst snd]. intros [= ->]. left. eauto.
  - discriminate.
Qed.

Lemma first_failure_panic (pre post : list (ptr loc)) p h :
  (forall q, q ∈ pre -> verdict q h = Ok tt) ->
  verdict p h = Panic ->
  first_failure (pre ++ p :: post)%list h = Panic.
Proof.
  intros Hpre Hp. induction pre as [|q pre IH]; simpl.
  - now rewrite Hp.
  - rewrite (Hpre q) by (rewrite elem_of_cons; now left).
    apply IH. intros q' Hq'. apply Hpre. rewrite elem_of_cons. now right.
Qed.

(** X20.  [ListPolicies] panics when [parseFilters] panics on the raw filters
    text of a schema of the page, every schema before it normalizing: one
    filters text with a nil element takes the whole listing down. *)
Theorem ListPolicies_panics (query : ptr loc) (w : world) (h : gmap loc Schema)
  (page : slice (ptr loc)) (pre post : list (ptr loc)) (l : loc) (s : Schema) :
  dao.List query w = (h, Ok page) ->
  elems page = (pre ++ Some l :: post)%list ->
  (forall q, q ∈ pre -> normalizes q h) ->
  h !! l = Some s ->
  parseFilters (FiltersStr s) = Panic ->
  (ListPolicies query w).2 = Panic.
Proof.
  intros HL Hpage Hpre Hl Hf.
  assert (Hv : verdict (Some l) h = Panic).
  { unfold verdict, normal_form. now rewrite Hl, Hf. }
  assert (Hff : first_failure (elems page) h = Panic).
  { rewrite Hpage. apply first_failure_panic; [|exact Hv].
    intros q Hq. apply normalizes_verdict. auto. }
  pose proof (ListPolicies_loop_result (elems page) h) as Hres. rewrite Hff in Hres.
  unfold ListPolicies. rewrite HL.
  destruct (ListPolicies_loop (elems page) h) as [h1 r1]. simpl in Hres. subst r1.
  reflexivity.
Qed.

End list_errors.

(** ** The query of ListPoliciesByProject *)

Section project_properties.
Context `{O : Opaque} `{U : !Unmarshal} `{G : !GoImpl} `{D : !dao.DAO}.

(** The queries and the keyword maps after [ListPoliciesByProject] are
    those [projectQuery] leaves. *)
Lemma ListPoliciesByProject_world project query w :
  match projectQuery project query w with
  | Some (q, w') =>
      queries (ListPoliciesByProject project query w).1 = queries w'
      /\ kwmaps (ListPoliciesByProject project query w).1 = kwmaps w'
  | None => (ListPoliciesByProject project query w).1 = w
  end.
Proof.
  unfold ListPoliciesByProject.
  destruct (projectQuery project query w) as [[q w']|]; [|reflexivity].
  apply ListPolicies_queries.
Qed.

(** What [projectQuery] leaves alone: the queries other than the one it
    is given, the keyword maps other than that of the query, and of the
    query itself the paging and a keyword map it has. *)
Lemma projectQuery_others project query w q w' :
  projectQuery project query w = Some (q, w') ->
  (forall q' qv', queries w !! q' = Some qv' -> query <> Some q' ->
     queries w' !! q' = Some qv')
  /\ (forall m' kw', kwmaps w !! m' = Some kw' ->
        (forall q0 qv, query = Some q0 -> queries w !! q0 = Some qv ->
           Keywords qv <> Some m') ->
        kwmaps w' !! m' = Some kw')
  /\ (forall q0 qv, query = Some q0 -> queries w !! q0 = Some qv ->
        exists qv1, queries w' !! q0 = Some qv1
                    /\ Paging qv1 = Paging qv
                    /\ (Keywords qv <> None -> Keywords qv1 = Keywords qv)).
Proof.
  unfold projectQuery. destruct query as [q0|].
  - destruct (queries w !! q0) as [qv|] eqn:Hq0; [|discriminate].
    destruct (Keywords qv) as [m0|] eqn:Ek.
    + destruct (kwmaps w !! m0) as [kw|] eqn:Hkw; [|discriminate].
      intros [= <- <-]. simpl. split; [auto|]. split.
      * intros m' kw' Hm' Hne. rewrite lookup_insert_ne; [exact Hm'|].
        intros <-. apply (Hne q0 qv eq_refl Hq0). exact Ek.
      * intros q1 qv1 [= <-] Hq1. rewrite Hq0 in Hq1. injection Hq1 as <-.
        exists qv. rewrite Hq0. auto.
    + simpl. rewrite lookup_insert_eq. intros [= <- <-]. simpl.
      pose proof (is_fresh (dom (kwmaps w))) as Hfresh.
      split; [|split].
      * intros q' qv' Hq' Hne. rewrite lookup_insert_ne; [exact Hq'|congruence].
      * intros m' kw' Hm' _. rewrite !lookup_insert_ne; [exact Hm'| |];
          intros <-; apply Hfresh; apply elem_of_dom; eauto.
      * intros q1 qv1 [= <-] Hq1. rewrite Hq0 in Hq1. injection Hq1 as <-.
        rewrite lookup_insert_eq. eexists. split; [reflexivity|]. simpl.
        split; [reflexivity|]. rewrite Ek. congruence.
  - simpl. rewrite lookup_insert_eq. simpl. rewrite lookup_insert_eq.
    intros [= <- <-]. simpl.
    pose proof (is_fresh (dom (queries w))) as Hq.
    pose proof (is_fresh (dom (kwmaps w))) as Hm.
    split; [|split].
    + intros q' qv' Hq' _. rewrite !lookup_insert_ne; [exact Hq'| |];
        intros <-; apply Hq; apply elem_of_dom; eauto.
    + intros m' kw' Hm' _. rewrite !lookup_insert_ne; [exact Hm'| |];
        intros <-; apply Hm; apply elem_of_dom; eauto.
    + discriminate.
Qed.

(** X21.  [ListPoliciesByProject] writes the query it is given and the keyword
    map of that query, and nothing else a caller holds: every other query and
    every other keyword map is as before, and so are the paging of the query
    and the map it points to. *)
Theorem ListPoliciesByProject_writes (project : Z) (query : ptr loc) (w : world) :
  (forall q' qv', queries w !! q' = Some qv' -> query <> Some q' ->
     queries (ListPoliciesByProject project query w).1 !! q' = Some qv')
  /\ (forall m' kw', kwmaps w !! m' = Some kw' ->
        (forall q0 qv, query = Some q0 -> queries w !! q0 = Some qv ->
           Keywords qv <> Some m') ->
        kwmaps (ListPoliciesByProject project query w).1 !! m' = Some kw')
  /\ (forall q0 qv, query = Some q0 -> queries w !! q0 = Some qv ->
        exists qv1, queries (ListPoliciesByProject project query w).1 !! q0 = Some qv1
                    /\ Paging qv1 = Paging qv
                    /\ (Keywords qv <> None -> Keywords qv1 = Keywords qv)).
Proof.
  pose proof (ListPoliciesByProject_world project query w) as Hw.
  destruct (projectQuery project query w) as [[q w']|] eqn:Hp.
  - destruct Hw as [-> ->]. exact (projectQuery_others _ _ _ _ _ Hp).
  - rewrite Hw. split; [auto|]. split; [auto|]. intros q0 qv _ Hq0. exists qv. auto.
Qed.

(** The keywords of a query of the caller after a call. *)
Lemma ListPoliciesByProject_keywords project q w :
  valid_query (Some q) w ->
  keywords_of (Some q) (ListPoliciesByProject project (Some q) w).1
  = <["project_id" := VInt64 project]> (keywords_of (Some q) w)
  /\ valid_query (Some q) (ListPoliciesByProject project (Some q) w).1.
Proof.
  intros Hv.
  destruct (projectQuery_spec project (Some q) w Hv)
    as (q1 & m & w' & Hp & _ & _ & [paging Hq] & Hm & _ & Hown & _ & _ & Hq1 & Hk1).
  destruct Hv as (qv & Hqv & _).
  destruct (Hown q qv eq_refl Hqv) as (-> & _).
  split.
  - unfold keywords_of at 1. rewrite Hq1, Hk1, Hq. simpl. rewrite Hm. reflexivity.
  - simpl. rewrite Hq1, Hk1. eexists. split; [exact Hq|]. simpl. rewrite Hm. eauto.
Qed.

(** X22.  Two calls with the same query and two projects leave the query with
    its first keywords and the second project: the entry is overwritten, the
    constraints do not pile up. *)
Theorem ListPoliciesByProject_last_project (p1 p2 : Z) (q : loc) (w : world) :
  valid_query (Some q) w ->
  keywords_of (Some q)
    (ListPoliciesByProject p2 (Some q) (ListPoliciesByProject p1 (Some q) w).1).1
  = <["project_id" := VInt64 p2]> (keywords_of (Some q) w).
Proof.
  intros Hv.
  destruct (ListPoliciesByProject_keywords p1 q w Hv) as [H1 Hv1].
  destruct (ListPoliciesByProject_keywords p2 q _ Hv1) as [H2 _].
  rewrite H2, H1. apply insert_insert_eq.
Qed.

(** X23.  A keyword map is shared by reference: a second query that points to
    the keyword map of the query of the call sees the project too. *)
Theorem ListPoliciesByProject_shared_map (project : Z) (q q2 m : loc)
  (qv qv2 : Query) (w : world) :
  queries w !! q = Some qv ->
  Keywords qv = Some m ->
  is_Some (kwmaps w !! m) ->
  queries w !! q2 = Some qv2 ->
  Keywords qv2 = Some m ->
  keywords_of (Some q2) (ListPoliciesByProject project (Some q) w).1
  = <["project_id" := VInt64 project]> (keywords_of (Some q2) w).
Proof.
  intros Hq Hk [kw Hm] Hq2 Hk2.
  pose proof (ListPoliciesByProject_world project (Some q) w) as Hw.
  assert (Hp : projectQuery project (Some q) w
               = Some (q, {| schemas := schemas w; queries := queries w;
                             kwmaps := <[m := <["project_id" := VInt64 project]> kw]>
                                         (kwmaps w) |})).
  { unfold projectQuery. rewrite Hq, Hk, Hm. reflexivity. }
  rewrite Hp in Hw. destruct Hw as [Hw1 Hw2]. simpl in Hw1, Hw2.
  unfold keywords_of. rewrite Hw1, Hw2, Hq2, Hk2, Hm, lookup_insert_eq. reflexivity.
Qed.

End project_properties.


(** ** Examples of the further properties *)

Section property_examples.
Import reference samples.
#[local] Existing Instances opaque unmarshal amd64.

Lemma severity_string_syntax_error_witness :
  numeral.leading_digits (numeral.unsigned "7.9") 0 = (7, ".9")
  /\ strconv.ParseInt "7.9" 10 32 = (0, Some (strconv.syntaxError "ParseInt" "7.9"))
  /\ parseFilters_loop [Some (mkFilter FilterTypeVulnerability (VString "7.9")); None]
     = Err (Wrapf (OfStrconv (strconv.syntaxError "ParseInt" "7.9")) "parse filters").
Proof.
  assert (Hl : numeral.leading_digits (numeral.unsigned "7.9") 0 = (7, ".9"))
    by reflexivity.
  split; [exact Hl|].
  apply (severity_string_syntax_error "7.9" ".9" 7 [None] Hl).
  right. split; [discriminate|lia].
Defined.

Lemma severity_string_range_error_witness :
  numeral.leading_digits (numeral.unsigned "-2147483649") 0 = (2147483649, EmptyString)
  /\ strconv.ParseInt "-2147483649" 10 32
     = (- 2 ^ 31, Some (strconv.rangeError "ParseInt" "-2147483649"))
  /\ parseFilters_loop [Some (mkFilter FilterTypeVulnerability (VString "-2147483649"))]
     = Err (Wrapf (OfStrconv (strconv.rangeError "ParseInt" "-2147483649")) "parse filters").
Proof.
  assert (Hl : numeral.leading_digits (numeral.unsigned "-2147483649") 0
               = (2147483649, EmptyString)) by reflexivity.
  split; [exact Hl|].
  apply (severity_string_range_error "-2147483649" EmptyString 2147483649 [] Hl).
  - now left.
  - simpl. lia.
Defined.

Lemma severity_string_accepted_witness :
  numeral.unsigned "+007" <> EmptyString
  /\ numeral.leading_digits (numeral.unsigned "+007") 0 = (7, EmptyString)
  /\ strconv.ParseInt "+007" 10 32 = (7, None)
  /\ parseFilters_loop [Some (mkFilter FilterTypeVulnerability (VString "+007"))]
     = Ok [Some (mkFilter FilterTypeVulnerability (VInt 7))].
Proof.
  assert (Hb : numeral.unsigned "+007" <> EmptyString) by discriminate.
  assert (Hl : numeral.leading_digits (numeral.unsigned "+007") 0 = (7, EmptyString))
    by reflexivity.
  split; [exact Hb|]. split; [exact Hl|].
  apply (severity_string_accepted "+007" 7 [] Hb Hl). simpl. lia.
Defined.

Lemma parseFilters_loop_idempotent_witness :
  parseFilters_loop (Some <$> decoded_7)
  = Ok [Some (mkFilter "vulnerability" (VInt 7));
        Some (mkFilter "vulnerability" (VInt 7));
        Some (mkFilter "tag" (VString "7"))]
  /\ parseFilters_loop [Some (mkFilter "vulnerability" (VInt 7));
                        Some (mkFilter "vulnerability" (VInt 7));
                        Some (mkFilter "tag" (VString "7"))]
     = Ok [Some (mkFilter "vulnerability" (VInt 7));
           Some (mkFilter "vulnerability" (VInt 7));
           Some (mkFilter "tag" (VString "7"))].
Proof.
  assert (Hl : parseFilters_loop (Some <$> decoded_7)
               = Ok [Some (mkFilter "vulnerability" (VInt 7));
                     Some (mkFilter "vulnerability" (VInt 7));
                     Some (mkFilter "tag" (VString "7"))])
    by (vm_compute; reflexivity).
  split; [exact Hl|]. exact (parseFilters_loop_idempotent _ _ Hl).
Defined.

Lemma parseFilters_error_witness :
  parseFilters filters_high
  = Err (Wrapf (OfStrconv (strconv.syntaxError "ParseInt" "high")) "parse filters")
  /\ filters_high <> EmptyString
  /\ ((exists je, unmarshal_filters filters_high = inl je
                  /\ Wrapf (OfStrconv (strconv.syntaxError "ParseInt" "high")) "parse filters"
                     = OfJSON je)
      \/ (exists filters f str w r,
            unmarshal_filters filters_high = inr filters
            /\ Some f ∈ elems filters
            /\ Type_ f = FilterTypeVulnerability
            /\ Value f = VString str
            /\ strconv.ParseInt str 10 32 = (w, Some (strconv.mkNumError "ParseInt" str r))
            /\ (r = strconv.ErrSyntax \/ r = strconv.ErrRange)
            /\ Wrapf (OfStrconv (strconv.syntaxError "ParseInt" "high")) "parse filters"
               = Wrapf (OfStrconv (strconv.mkNumError "ParseInt" str r)) "parse filters")).
Proof.
  assert (He : parseFilters filters_high
               = Err (Wrapf (OfStrconv (strconv.syntaxError "ParseInt" "high"))
                        "parse filters")) by (vm_compute; reflexivity).
  split; [exact He|]. exact (parseFilters_error _ _ He).
Defined.

Lemma severity_string_float_agree_witness :
  strconv.ParseInt "7" 10 32 = (7, None)
  /\ float64_trunc f7_9 = Some 7
  /\ parseFilters_loop [Some (mkFilter FilterTypeVulnerability (VString "7"))]
     = Ok [Some (mkFilter FilterTypeVulnerability (VInt 7))]
  /\ parseFilters_loop [Some (mkFilter FilterTypeVulnerability (VFloat64 f7_9))]
     = Ok [Some (mkFilter FilterTypeVulnerability (VInt 7))].
Proof.
  assert (Hp : strconv.ParseInt "7" 10 32 = (7, None)) by reflexivity.
  assert (Hx : float64_trunc f7_9 = Some 7) by (vm_compute; reflexivity).
  split; [exact Hp|]. split; [exact Hx|].
  exact (severity_string_float_agree "7" f7_9 7 Hp Hx).
Defined.

Lemma parsePolicy_idempotent_witness :
  parsePolicy (Some 1%positive) (<[1%positive := nightly]> ∅)
  = ((parsePolicy (Some 1%positive) (<[1%positive := nightly]> ∅)).1, Ok 1%positive)
  /\ parsePolicy (Some 1%positive) (parsePolicy (Some 1%positive) (<[1%positive := nightly]> ∅)).1
     = ((parsePolicy (Some 1%positive) (<[1%positive := nightly]> ∅)).1, Ok 1%positive).
Proof.
  assert (Hp : parsePolicy (Some 1%positive) (<[1%positive := nightly]> ∅)
               = ((parsePolicy (Some 1%positive) (<[1%positive := nightly]> ∅)).1,
                  Ok 1%positive))
    by (vm_compute; reflexivity).
  split; [exact Hp|]. exact (parsePolicy_idempotent _ _ _ _ Hp).
Defined.

Lemma parsePolicy_raw_texts_witness :
  Filters stale <> Filters nightly
  /\ (parsePolicy (Some 1%positive) (<[1%positive := nightly]> ∅)).2
     = (parsePolicy (Some 1%positive) (<[1%positive := stale]> ∅)).2
  /\ (forall l', (parsePolicy (Some 1%positive) (<[1%positive := nightly]> ∅)).2 = Ok l' ->
        exists s1' s2',
          (parsePolicy (Some 1%positive) (<[1%positive := nightly]> ∅)).1 !! 1%positive
          = Some s1'
          /\ (parsePolicy (Some 1%positive) (<[1%positive := stale]> ∅)).1 !! 1%positive
             = Some s2'
          /\ Filters s1' = Filters s2' /\ Trigger s1' = Trigger s2').
Proof.
  split; [discriminate|].
  apply (parsePolicy_raw_texts 1%positive (<[1%positive := nightly]> ∅)
           (<[1%positive := stale]> ∅) nightly stale); reflexivity.
Defined.

Lemma parsePolicy_nil_fields_witness :
  parsePolicy (Some 2%positive) (<[2%positive := blank]> ∅)
  = ((parsePolicy (Some 2%positive) (<[2%positive := blank]> ∅)).1, Ok 2%positive)
  /\ exists s',
       (parsePolicy (Some 2%positive) (<[2%positive := blank]> ∅)).1 !! 2%positive = Some s'
       /\ (Trigger s' = None <-> TriggerStr s' = EmptyString)
       /\ (Filters s' = None
           <-> FiltersStr s' = EmptyString \/ unmarshal_filters (FiltersStr s') = inr None).
Proof.
  assert (Hp : parsePolicy (Some 2%positive) (<[2%positive := blank]> ∅)
               = ((parsePolicy (Some 2%positive) (<[2%positive := blank]> ∅)).1,
                  Ok 2%positive))
    by (vm_compute; reflexivity).
  split; [exact Hp|]. exact (parsePolicy_nil_fields _ _ _ _ Hp).
Defined.

Lemma Get_panics_witness :
  dao.Get (DAO := store [nulled]) 7 ∅ = (<[1%positive := nulled]> ∅, Ok (Some 1%positive))
  /\ unmarshal_filters (FiltersStr nulled) = inr (Some [None])
  /\ parseFilters (FiltersStr nulled) = Panic
  /\ (Get (D := store [nulled]) 7 ∅).2 = Panic.
Proof.
  assert (Hd : dao.Get (DAO := store [nulled]) 7 ∅
               = (<[1%positive := nulled]> ∅, Ok (Some 1%positive)))
    by (vm_compute; reflexivity).
  assert (Hf : parseFilters (FiltersStr nulled) = Panic) by (vm_compute; reflexivity).
  split; [exact Hd|]. split; [vm_compute; reflexivity|]. split; [exact Hf|].
  exact (proj2 (proj1 (Get_panics (D := store [nulled]) 7 ∅ _ 1%positive nulled
                         Hd eq_refl)) Hf).
Defined.

Lemma ListPolicies_failure_heap_witness :
  dao.List (DAO := store table) None empty_world
  = (listed, Ok (Some [Some 1%positive; Some 2%positive; Some 3%positive]))
  /\ fails_with (Some 3%positive) listed (OfJSON json.SyntaxError)
  /\ (ListPolicies (D := store table) None empty_world).2 = Err (OfJSON json.SyntaxError)
  /\ (forall l, Some l ∈ [Some 1%positive; Some 2%positive] ->
        schemas (ListPolicies (D := store table) None empty_world).1 !! l
        = listed !! l ≫= normalized)
  /\ (forall l, Some l ∉ [Some 1%positive; Some 2%positive] -> Some 3%positive <> Some l ->
        schemas (ListPolicies (D := store table) None empty_world).1 !! l = listed !! l).
Proof.
  assert (Hd : dao.List (DAO := store table) None empty_world
               = (listed, Ok (Some [Some 1%positive; Some 2%positive; Some 3%positive])))
    by (vm_compute; reflexivity).
  assert (Hf : fails_with (Some 3%positive) listed (OfJSON json.SyntaxError)).
  { eexists. vm_compute. reflexivity. }
  split; [exact Hd|]. split; [exact Hf|].
  apply (ListPolicies_failure_heap (D := store table) None empty_world listed _
           [Some 1%positive; Some 2%positive] [] (Some 3%positive) _ Hd eq_refl);
    [|exact Hf].
  intros q Hq. repeat (apply elem_of_cons in Hq as [->|Hq]);
    [eexists _, _; vm_compute; reflexivity ..|].
  now apply elem_of_nil in Hq.
Defined.

Lemma ListPolicies_writes_witness :
  dao.List (DAO := store table) None empty_world
  = (listed, Ok (Some [Some 1%positive; Some 2%positive; Some 3%positive]))
  /\ dom (schemas (ListPolicies (D := store table) None empty_world).1) = dom listed
  /\ persisted <$> schemas (ListPolicies (D := store table) None empty_world).1
     = persisted <$> listed.
Proof.
  assert (Hd : dao.List (DAO := store table) None empty_world
               = (listed, Ok (Some [Some 1%positive; Some 2%positive; Some 3%positive])))
    by (vm_compute; reflexivity).
  destruct (ListPolicies_writes (D := store table) None empty_world listed _ Hd)
    as (Hdom & Hper & _).
  split; [exact Hd|]. split; [exact Hdom|exact Hper].
Defined.

Lemma ListPolicies_normalized_witness :
  (ListPolicies (D := store [nightly; blank]) None empty_world).2
  = Ok (Some [Some 1%positive; Some 2%positive])
  /\ (None ∉ [Some 1%positive; Some 2%positive])
  /\ forall l, Some l ∈ [Some 1%positive; Some 2%positive] ->
       parsePolicy (Some l) (schemas (ListPolicies (D := store [nightly; blank]) None empty_world).1)
       = (schemas (ListPolicies (D := store [nightly; blank]) None empty_world).1, Ok l).
Proof.
  assert (Hl : (ListPolicies (D := store [nightly; blank]) None empty_world).2
               = Ok (Some [Some 1%positive; Some 2%positive]))
    by (vm_compute; reflexivity).
  split; [exact Hl|].
  exact (ListPolicies_normalized (D := store [nightly; blank]) None empty_world _ Hl).
Defined.

Lemma ListPolicies_error_witness :
  (ListPolicies (D := store table) None empty_world).2 = Err (OfJSON json.SyntaxError)
  /\ ((exists h, dao.List (DAO := store table) None empty_world
                 = (h, Err (OfJSON json.SyntaxError)))
      \/ exists h page pre p post,
           dao.List (DAO := store table) None empty_world = (h, Ok page)
           /\ elems page = (pre ++ p :: post)%list
           /\ (forall q, q ∈ pre -> normalizes q h)
           /\ fails_with p h (OfJSON json.SyntaxError)).
Proof.
  assert (He : (ListPolicies (D := store table) None empty_world).2
               = Err (OfJSON json.SyntaxError)) by (vm_compute; reflexivity).
  split; [exact He|].
  exact (ListPolicies_error (D := store table) None empty_world _ He).
Defined.

Lemma ListPolicies_panics_witness :
  dao.List (DAO := store [blank; nulled; nightly]) None empty_world
  = (<[3%positive := nightly]> (<[2%positive := nulled]> (<[1%positive := blank]> ∅)),
     Ok (Some [Some 1%positive; Some 2%positive; Some 3%positive]))
  /\ parseFilters (FiltersStr nulled) = Panic
  /\ (ListPolicies (D := store [blank; nulled; nightly]) None empty_world).2 = Panic.
Proof.
  assert (Hd : dao.List (DAO := store [blank; nulled; nightly]) None empty_world
               = (<[3%positive := nightly]>
                    (<[2%positive := nulled]> (<[1%positive := blank]> ∅)),
                  Ok (Some [Some 1%positive; Some 2%positive; Some 3%positive])))
    by (vm_compute; reflexivity).
  assert (Hf : parseFilters (FiltersStr nulled) = Panic) by (vm_compute; reflexivity).
  split; [exact Hd|]. split; [exact Hf|].
  apply (ListPolicies_panics (D := store [blank; nulled; nightly]) None empty_world _ _
           [Some 1%positive] [Some 3%positive] 2%positive nulled Hd eq_refl);
    [|reflexivity|exact Hf].
  intros q Hq. apply elem_of_cons in Hq as [->|Hq];
    [eexists _, _; vm_compute; reflexivity|].
  now apply elem_of_nil in Hq.
Defined.

Lemma ListPoliciesByProject_last_project_witness :
  valid_query (Some 5%positive) asking
  /\ keywords_of (Some 5%positive)
       (ListPoliciesByProject (D := store table) 2 (Some 5%positive)
          (ListPoliciesByProject (D := store table) 1 (Some 5%positive) asking).1).1
     = <["project_id" := VInt64 2]> (keywords_of (Some 5%positive) asking).
Proof.
  assert (Hv : valid_query (Some 5%positive) asking).
  { exists (@mkQuery opaque None (2, 10)). split; [reflexivity|exact I]. }
  split; [exact Hv|].
  exact (ListPoliciesByProject_last_project (D := store table) 1 2 5%positive asking Hv).
Defined.

Lemma ListPoliciesByProject_shared_map_witness :
  keywords_of (Some 6%positive) sharing = {[ "name" := VString "nightly" ]}
  /\ keywords_of (Some 6%positive)
       (ListPoliciesByProject (D := store table) 1 (Some 5%positive) sharing).1
     = <["project_id" := VInt64 1]> (keywords_of (Some 6%positive) sharing).
Proof.
  split; [reflexivity|].
  apply (ListPoliciesByProject_shared_map (D := store table) 1 5%positive 6%positive
           1%positive (@mkQuery opaque (Some 1%positive) (2, 10))
           (@mkQuery opaque (Some 1%positive) (1, 50)) sharing);
    try reflexivity.
  eexists. reflexivity.
Defined.

End property_examples.
